(** * LibreOffice routes of Gotenberg: conversion pipeline and PNG invoker

    Shallow embedding of [pkg/modules/libreoffice/routes.go]:
    the [convertRoute] handler, the [generateThumnailRoute] handler and
    [createPNG].  Every call that leaves the file (form binding, path
    generation, the uno API, the PDF engine, the listener, the command
    runner, the logger) is answered by an environment [Env]; each answer may
    depend on everything that happened before, and each call is recorded in a
    chronological trace. *)

From stdpp Require Import base list strings pretty.
From Stdlib Require Import ZArith Lia.

Local Open Scope string_scope.
Local Open Scope list_scope.
Local Open Scope Z_scope.

(** ** Errors *)

(** [api.SentinelHTTPError]: a status code and the message sent to the client. *)
Record SentinelHTTPError := NewSentinelHTTPError {
  http_status : Z;
  http_message : string
}.

(** Go [error] values as the file builds and inspects them.
    - [Sentinel]: a package-level error variable, compared by identity;
    - [errors_New]: [errors.New(msg)] written inline;
    - [Errorf]: [fmt.Errorf(prefix + ": %w", err)];
    - [WrapError]: [api.WrapError(err, sentinel)]. *)
Inductive error :=
| Sentinel (name : string)
| errors_New (msg : string)
| Errorf (prefix : string) (err : error)
| WrapError (err : error) (sentinel : SentinelHTTPError).

Definition StatusBadRequest : Z := 400.

#[global] Instance SentinelHTTPError_eq_dec : EqDecision SentinelHTTPError.
Proof. solve_decision. Defined.

#[global] Instance error_eq_dec : EqDecision error.
Proof. solve_decision. Defined.

(** [uno.ErrMalformedPageRanges] and [gotenberg.ErrPDFFormatNotAvailable]. *)
Definition uno_ErrMalformedPageRanges : error := Sentinel "uno.ErrMalformedPageRanges".
Definition gotenberg_ErrPDFFormatNotAvailable : error :=
  Sentinel "gotenberg.ErrPDFFormatNotAvailable".

(** Modelled from the spec: [createPNG] returns the package-level identifier
    [ErrMalformedPageRanges], which routes.go does not declare.  The spec has
    one typed malformed-page-range error, the one the handlers test for. *)
Definition ErrMalformedPageRanges : error := uno_ErrMalformedPageRanges.

(** [gotenberg.FormatPDFA1a], declared in package gotenberg. *)
Definition FormatPDFA1a : string := "PDF/A-1a".

(** [errors.Is(err, target)]: compare by identity, then go on with the error
    wrapped by [%w].  The targets tested in this file are package-level
    sentinels. *)
Fixpoint errors_Is (err target : error) : bool :=
  if decide (err = target) then true
  else match err with
       | Errorf _ inner => errors_Is inner target
       | _ => false
       end.

(** What the API layer sends for a handler result: the status and message of
    the sentinel given to [api.WrapError]; any other error is a generic
    failure with no client-facing description. *)
Definition client_error (res : option error) : option (Z * string) :=
  match res with
  | Some (WrapError _ s) => Some (http_status s, http_message s)
  | _ => None
  end.

(** ** Options, form data *)

(** [uno.Options]. *)
Record Options := {
  Landscape : bool;
  PageRanges : string;
  PDFformat : string
}.

#[global] Instance Options_eq_dec : EqDecision Options.
Proof. solve_decision. Defined.

(** The values bound by [ctx.FormData()...Validate()] in [convertRoute],
    with the result of [Validate]. *)
Record Form := {
  inputPaths : list string;
  landscape : bool;
  nativePageRanges : string;
  nativePdfA1aFormat : bool;
  nativePdfFormat : string;
  pdfFormat : string;
  merge : bool;
  Validate : option error
}.

(** [s != ""]. *)
Definition nonempty (s : string) : bool := negb (String.eqb s "").

(** ** Events and the environment *)

Inductive Level := DebugLevel | WarnLevel | ErrorLevel.

(** One constructor per call that leaves the file, with its arguments and its
    answer.  [EvCreatePNG] marks the entry of [createPNG] with its arguments;
    [EvGoUnlock] is the goroutine started by the deferred function of the
    shared-listener branch. *)
Inductive Event :=
| EvLog (lvl : Level) (msg : string) (err : option error)
| EvGeneratePath (ext path : string)
| EvPDF (inputPath outputPath : string) (options : Options) (res : option error)
| EvCreatePNG (inputPath outputPath : string) (options : Options)
| EvMerge (inputs : list string) (outputPath : string) (res : option error)
| EvConvert (format inputPath outputPath : string) (res : option error)
| EvAddOutputPaths (paths : list string) (res : option error)
| EvListenerStart (res : option error)
| EvListenerStop (res : option error)
| EvListenerPort (port : Z)
| EvLock (res : option error)
| EvSharedPort (port : Z)
| EvGoUnlock
| EvDebugCheck (enabled : bool)
| EvCommandContext (binPath : string) (args : list string) (res : option error)
| EvExec (args : list string) (exitCode : Z) (err : option error).

Definition Trace := list Event.

(** The collaborators.  Each answer is a function of the history so far. *)
Record Env := {
  (* api.Context *)
  ctx_GeneratePath : Trace -> string -> string;
  ctx_AddOutputPaths : Trace -> list string -> option error;
  (* uno.API *)
  unoAPI_PDF : Trace -> string -> string -> Options -> option error;
  (* gotenberg.PDFEngine *)
  engine_Merge : Trace -> list string -> string -> option error;
  engine_Convert : Trace -> string -> string -> string -> option error;
  (* mod: configuration and long-running listener *)
  libreOfficeRestartThreshold : Z;
  unoconvBinPath : string;
  mod_listener_lock : Trace -> option error;
  mod_listener_port : Trace -> Z;
  (* newLibreOfficeListener(...): the private listener of one call *)
  listener_start : Trace -> option error;
  listener_stop : Trace -> option error;
  listener_port : Trace -> Z;
  (* logger.Check(zap.DebugLevel, ...) != nil *)
  logger_Check : Trace -> bool;
  (* gotenberg.CommandContext and cmd.Exec *)
  CommandContext : Trace -> string -> list string -> option error;
  cmd_Exec : Trace -> list string -> Z * option error;
  (* identifiers generateThumnailRoute reads without declaring them *)
  pkg_nativePDFA1aFormat : bool;
  pkg_nativePDFformat : string;
  pkg_PDFformat : string
}.

(** ** State and the monad of a Go function body *)

(** Go's [int] is 64 bits wide on the supported platforms. *)
Definition wrap64 (z : Z) : Z := (z + 2 ^ 63) mod 2 ^ 64 - 2 ^ 63.

Record State := {
  trace : Trace;
  activeInstancesCount : Z
}.

Definition emit (ev : Event) (st : State) : State :=
  {| trace := trace st ++ [ev]; activeInstancesCount := activeInstancesCount st |}.

Definition bump (d : Z) (st : State) : State :=
  {| trace := trace st; activeInstancesCount := wrap64 (activeInstancesCount st + d) |}.

(** A body either goes on with a value or has executed [return err]. *)
Inductive Result (A : Type) :=
| Ok (a : A)
| Err (e : error).
Arguments Ok {A} a.
Arguments Err {A} e.

Definition M (A : Type) : Type := State -> Result A * State.

Definition ret {A} (a : A) : M A := fun st => (Ok a, st).
Definition raise {A} (e : error) : M A := fun st => (Err e, st).
Definition bind {A B} (m : M A) (k : A -> M B) : M B :=
  fun st => match m st with
            | (Ok a, st') => k a st'
            | (Err e, st') => (Err e, st')
            end.

Notation "x <- m ;; k" := (bind m (fun x => k))
  (at level 100, m at next level, right associativity).
Notation "m ;; k" := (bind m (fun _ => k))
  (at level 100, right associativity).

(** Ask the environment, record the call together with its answer. *)
Definition call {A} (ask : Trace -> A) (ev : A -> Event) : M A :=
  fun st => let a := ask (trace st) in (Ok a, emit (ev a) st).

(** Something that happens without an answer. *)
Definition record (ev : Event) : M unit := fun st => (Ok tt, emit ev st).

Definition log (lvl : Level) (msg : string) (err : option error) : M unit :=
  record (EvLog lvl msg err).

(** [activeInstancesCount += d], under [activeInstancesCountMu]. *)
Definition count (d : Z) : M unit := fun st => (Ok tt, bump d st).

Definition when (b : bool) (m : M unit) : M unit := if b then m else ret tt.

(** [defer f] registered before [body]: [f] runs when the function returns,
    whatever it returns. *)
Definition with_defer {A} (deferred : M unit) (body : M A) : M A :=
  fun st => let (r, st1) := body st in (r, snd (deferred st1)).

(** The [error] a handler or function hands back: [nil] is [None]. *)
Definition returned {A} (r : Result A) : option error :=
  match r with
  | Ok _ => None
  | Err e => Some e
  end.

(** Calling a function of this file: its [return] ends the callee only, and
    the caller receives the error value. *)
Definition invoke {A} (callee : M A) : M (option error) :=
  fun st => let (r, st') := callee st in (Ok (returned r), st').

(** ** [convertRoute] *)

Definition GeneratePath (E : Env) (ext : string) : M string :=
  call (fun tr => ctx_GeneratePath E tr ext) (EvGeneratePath ext).

Definition AddOutputPaths (E : Env) (paths : list string) : M (option error) :=
  call (fun tr => ctx_AddOutputPaths E tr paths) (EvAddOutputPaths paths).

Definition malformed_message (pageRanges : string) : string :=
  "Malformed page ranges '" +:+ pageRanges +:+ "' (nativePageRanges)".

Definition format_message (format : string) : string :=
  "At least one PDF engine does not handle the PDF format '" +:+ format +:+
  "' (pdfFormat), while other have failed to convert for other reasons".

(** The test made on an error of [unoAPI.PDF] (lines 95-104). *)
Definition convertToPDF_failure (pageRanges : string) (err : error) : error :=
  if errors_Is err uno_ErrMalformedPageRanges then
    WrapError (Errorf "convert to PDF" err)
      (NewSentinelHTTPError StatusBadRequest (malformed_message pageRanges))
  else Errorf "convert to PDF" err.

(** Lines 84-105: [for i, inputPath := range inputPaths].  [i] is the loop
    index, [rest] the inputs still to visit. *)
Fixpoint convertRoute_convertLoop (E : Env) (f : Form) (nativePDFformat : string)
    (i : nat) (rest : list string) (outputPaths : list string) : M (list string) :=
  match rest with
  | [] => ret outputPaths
  | inputPath :: rest' =>
      p <- GeneratePath E ".pdf";;
      let outputPaths := <[i := p]> outputPaths in
      let options := {| Landscape := landscape f;
                        PageRanges := nativePageRanges f;
                        PDFformat := nativePDFformat |} in
      err <- call (fun tr => unoAPI_PDF E tr inputPath (outputPaths !!! i) options)
                  (EvPDF inputPath (outputPaths !!! i) options);;
      match err with
      | Some err => raise (convertToPDF_failure (PageRanges options) err)
      | None => convertRoute_convertLoop E f nativePDFformat (S i) rest' outputPaths
      end
  end.

(** The test made on an error of [engine.Convert] (lines 130-141, 174-186). *)
Definition convert_failure (PDFformat : string) (err : error) : error :=
  if errors_Is err gotenberg_ErrPDFFormatNotAvailable then
    WrapError (Errorf "convert PDF" err)
      (NewSentinelHTTPError StatusBadRequest (format_message PDFformat))
  else Errorf "convert PDF" err.

(** Lines 168-188: [for i, outputPath := range outputPaths]. *)
Fixpoint convertRoute_reformatLoop (E : Env) (PDFformat : string)
    (i : nat) (rest : list string) (convertOutputPaths : list string) : M (list string) :=
  match rest with
  | [] => ret convertOutputPaths
  | outputPath :: rest' =>
      let convertInputPath := outputPath in
      p <- GeneratePath E ".pdf";;
      let convertOutputPaths := <[i := p]> convertOutputPaths in
      err <- call (fun tr => engine_Convert E tr PDFformat convertInputPath
                               (convertOutputPaths !!! i))
                  (EvConvert PDFformat convertInputPath (convertOutputPaths !!! i));;
      match err with
      | Some err => raise (convert_failure PDFformat err)
      | None => convertRoute_reformatLoop E PDFformat (S i) rest' convertOutputPaths
      end
  end.

Definition both_native : error :=
  WrapError (errors_New "got both 'nativePdfFormat' and 'nativePdfA1aFormat' form fields")
    (NewSentinelHTTPError StatusBadRequest
       "Both 'nativePdfFormat' and 'nativePdfA1aFormat' form fields are provided").

Definition both_pdfFormat_A1a : error :=
  WrapError (errors_New "got both 'pdfFormat' and 'nativePdfA1aFormat' form fields")
    (NewSentinelHTTPError StatusBadRequest
       "Both 'pdfFormat' and 'nativePdfA1aFormat' form fields are provided").

Definition both_pdfFormat_native : error :=
  WrapError (errors_New "got both 'pdfFormat' and 'nativePdfFormat' form fields")
    (NewSentinelHTTPError StatusBadRequest
       "Both 'pdfFormat' and 'nativePdfFormat' form fields are provided").

Definition deprecation_warning : string :=
  "'nativePdfA1aFormat' is deprecated; prefer 'nativePdfFormat' or 'pdfFormat' form fields instead".

(** Lines 51-78, shared by both handlers: the deprecation warning, the three
    pairwise checks, and the value of [nativePDFformat] afterwards. *)
Definition check_formats (nativePDFA1aFormat : bool) (nativePDFformat PDFformat : string)
    : M string :=
  when nativePDFA1aFormat (log WarnLevel deprecation_warning None);;
  when (nativePDFA1aFormat && nonempty nativePDFformat) (raise both_native);;
  when (nativePDFA1aFormat && nonempty PDFformat) (raise both_pdfFormat_A1a);;
  when (nonempty nativePDFformat && nonempty PDFformat) (raise both_pdfFormat_native);;
  ret (if nativePDFA1aFormat then FormatPDFA1a else nativePDFformat).

(** Lines 110-157: the merge branch. *)
Definition convertRoute_merge (E : Env) (PDFformat : string) (outputPaths : list string)
    : M unit :=
  outputPath <- GeneratePath E ".pdf";;
  err <- call (fun tr => engine_Merge E tr outputPaths outputPath)
              (EvMerge outputPaths outputPath);;
  match err with
  | Some err => raise (Errorf "merge PDFs" err)
  | None =>
      outputPath <-
        (if nonempty PDFformat then
           let convertInputPath := outputPath in
           convertOutputPath <- GeneratePath E ".pdf";;
           err <- call (fun tr => engine_Convert E tr PDFformat convertInputPath
                                    convertOutputPath)
                       (EvConvert PDFformat convertInputPath convertOutputPath);;
           match err with
           | Some err => raise (convert_failure PDFformat err)
           | None => ret convertOutputPath
           end
         else ret outputPath);;
      err <- AddOutputPaths E [outputPath];;
      match err with
      | Some err => raise (Errorf "add output path" err)
      | None => ret tt
      end
  end.

(** Lines 165-202: no merge. *)
Definition convertRoute_each (E : Env) (PDFformat : string) (outputPaths : list string)
    : M unit :=
  outputPaths <-
    (if nonempty PDFformat then
       convertRoute_reformatLoop E PDFformat 0 outputPaths
         (replicate (length outputPaths) "")
     else ret outputPaths);;
  err <- AddOutputPaths E outputPaths;;
  match err with
  | Some err => raise (Errorf "add output paths" err)
  | None => ret tt
  end.

(** The handler of [convertRoute]. *)
Definition convertRoute (E : Env) (f : Form) : M unit :=
  match Validate f with
  | Some err => raise (Errorf "validate form data" err)
  | None =>
      nativePDFformat <-
        check_formats (nativePdfA1aFormat f) (nativePdfFormat f) (pdfFormat f);;
      outputPaths <-
        convertRoute_convertLoop E f nativePDFformat 0 (inputPaths f)
          (replicate (length (inputPaths f)) "");;
      if (1 <? length outputPaths)%nat && merge f
      then convertRoute_merge E (pdfFormat f) outputPaths
      else convertRoute_each E (pdfFormat f) outputPaths
  end.

(** ** [createPNG] *)

(** [fmt.Sprintf("%+v", options)]. *)
Definition fmt_options (o : Options) : string :=
  "{Landscape:" +:+ (if Landscape o then "true" else "false") +:+
  " PageRanges:" +:+ PageRanges o +:+ " PDFformat:" +:+ PDFformat o +:+ "}".

(** Lines 214-252: the [switch] on the restart threshold.  It yields the
    argument list with the port appended and the function it deferred. *)
Definition createPNG_acquire (E : Env) (args : list string) : M (list string * M unit) :=
  if decide (libreOfficeRestartThreshold E = 0) then
    err <- call (listener_start E) EvListenerStart;;
    match err with
    | Some err => raise (Errorf "start LibreOffice listener" err)
    | None =>
        let deferred : M unit :=
          err <- call (listener_stop E) EvListenerStop;;
          match err with
          | Some err => log ErrorLevel "stop LibreOffice listener" (Some err)
          | None => ret tt
          end in
        port <- call (listener_port E) EvListenerPort;;
        ret (args ++ ["--port"; pretty port], deferred)
    end
  else
    err <- call (mod_listener_lock E) EvLock;;
    match err with
    | Some err => raise (Errorf "lock long-running LibreOffice listener" err)
    | None =>
        let deferred : M unit := record EvGoUnlock in
        port <- call (mod_listener_port E) EvSharedPort;;
        ret (args ++ ["--port"; pretty port], deferred)
    end.

(** Lines 254-297, run with the deferred function pending. *)
Definition createPNG_run (E : Env) (args : list string)
    (inputPath outputPath : string) (options : Options) : M unit :=
  checkedEntry <- call (logger_Check E) EvDebugCheck;;
  let args := if checkedEntry then args ++ ["-vvv"] else args in
  let args := args ++ ["--output"; outputPath; inputPath] in
  err <- call (fun tr => CommandContext E tr (unoconvBinPath E) args)
              (EvCommandContext (unoconvBinPath E) args);;
  match err with
  | Some err => raise (Errorf "create unoconv command" err)
  | None =>
      log DebugLevel ("print to PNG with: " +:+ fmt_options options) None;;
      count 1;;
      r <- call (fun tr => cmd_Exec E tr args) (fun r => EvExec args (fst r) (snd r));;
      count (-1);;
      let exitCode := fst r in
      match snd r with
      | None => ret tt
      | Some err =>
          if (exitCode =? 5) && nonempty (PageRanges options)
          then raise ErrMalformedPageRanges
          else raise (Errorf "unoconv PNG" err)
      end
  end.

Definition createPNG (E : Env) (inputPath outputPath : string) (options : Options)
    : M unit :=
  record (EvCreatePNG inputPath outputPath options);;
  let args := ["--no-launch"; "--format"; "png"] in
  acquired <- createPNG_acquire E args;;
  with_defer (snd acquired) (createPNG_run E (fst acquired) inputPath outputPath options).

(** ** [generateThumnailRoute] *)

(** The test made on an error of [createPNG] (lines 370-379). *)
Definition thumbnail_failure (pageRanges : string) (err : error) : error :=
  if errors_Is err uno_ErrMalformedPageRanges then
    WrapError (Errorf "created thumbnail" err)
      (NewSentinelHTTPError StatusBadRequest (malformed_message pageRanges))
  else Errorf "create thumbnail" err.

(** Lines 359-380: [for i, inputPath := range inputPaths].  The source
    writes [PageRanges: 1]; the field is the string that [createPNG] compares
    with [""] and that [%s] prints, so the constant is its decimal ["1"]. *)
Fixpoint generateThumnailRoute_loop (E : Env) (f : Form) (nativePDFformat : string)
    (i : nat) (rest : list string) (outputPaths : list string) : M (list string) :=
  match rest with
  | [] => ret outputPaths
  | inputPath :: rest' =>
      p <- GeneratePath E ".png";;
      let outputPaths := <[i := p]> outputPaths in
      let options := {| Landscape := landscape f;
                        PageRanges := "1";
                        PDFformat := nativePDFformat |} in
      err <- invoke (createPNG E inputPath (outputPaths !!! i) options);;
      match err with
      | Some err => raise (thumbnail_failure (PageRanges options) err)
      | None => generateThumnailRoute_loop E f nativePDFformat (S i) rest' outputPaths
      end
  end.

(** The handler of [generateThumnailRoute].  It binds [inputPaths],
    [landscape] and [nativePageRanges] only; the three format variables it
    tests are the environment's. *)
Definition generateThumnailRoute (E : Env) (f : Form) : M unit :=
  match Validate f with
  | Some err => raise (Errorf "validate form data" err)
  | None =>
      nativePDFformat <-
        check_formats (pkg_nativePDFA1aFormat E) (pkg_nativePDFformat E) (pkg_PDFformat E);;
      outputPaths <-
        generateThumnailRoute_loop E f nativePDFformat 0 (inputPaths f)
          (replicate (length (inputPaths f)) "");;
      err <- AddOutputPaths E outputPaths;;
      match err with
      | Some err => raise (Errorf "add output paths" err)
      | None => ret tt
      end
  end.

(** Running a handler from a state: the error it returns and the events it
    added. *)
Definition run {A} (m : M A) (st : State) : option error * Trace :=
  let (r, st') := m st in (returned r, drop (length (trace st)) (trace st')).

Definition initial : State := {| trace := []; activeInstancesCount := 0 |}.

(** * Specifications

    ** Bodies

    [wp m h Q]: started from any state whose trace is [h], the body [m]
    terminates, extends the trace by some events [evs], and its result and
    [evs] satisfy [Q]. *)

Definition wp {A} (m : M A) (h : Trace) (Q : Result A -> Trace -> Prop) : Prop :=
  forall st, trace st = h ->
    exists evs, trace (snd (m st)) = h ++ evs /\ Q (fst (m st)) evs.

(** ** [createPNG]: result against the command runner's answer *)

(** Lines 278-297 as a function of what [cmd.Exec] returned. *)
Definition exec_outcome (options : Options) (exitCode : Z) (err : option error)
    : option error :=
  match err with
  | None => None
  | Some err =>
      if (exitCode =? 5) && nonempty (PageRanges options)
      then Some ErrMalformedPageRanges
      else Some (Errorf "unoconv PNG" err)
  end.

(** ** [createPNG]: the shared listener's port *)

Definition port_args (port : Z) : list string :=
  ["--no-launch"; "--format"; "png"; "--port"; pretty port].

(** Every read of the shared port follows a successful [lock()] of the same
    call and returns the port of that moment; every command line is built
    from a port read before it. *)
Definition port_after_lock (E : Env) (h evs : Trace) : Prop :=
  (forall pre port post,
      evs = pre ++ EvSharedPort port :: post ->
      In (EvLock None) pre /\ port = mod_listener_port E (h ++ pre)) /\
  (forall pre bin args res post,
      evs = pre ++ EvCommandContext bin args res :: post ->
      exists port, In (EvSharedPort port) pre /\ take 5 args = port_args port) /\
  (forall e, In (EvLock (Some e)) evs ->
      forall ev, In ev evs ->
        match ev with
        | EvSharedPort _ | EvCommandContext _ _ _ | EvExec _ _ _ => False
        | _ => True
        end).

(** ** The loops of [convertRoute] *)

Definition is_log (ev : Event) : bool :=
  match ev with EvLog _ _ _ => true | _ => false end.

(** A path generation or a conversion that succeeded. *)
Definition conv_ok (ev : Event) : bool :=
  match ev with
  | EvGeneratePath _ _ | EvPDF _ _ _ None => true
  | _ => false
  end.

(** A path generation or a reformat that succeeded. *)
Definition reformat_ok (ev : Event) : bool :=
  match ev with
  | EvGeneratePath _ _ | EvConvert _ _ _ None => true
  | _ => false
  end.

Definition convertOptions (f : Form) (nativePDFformat : string) : Options :=
  {| Landscape := landscape f;
     PageRanges := nativePageRanges f;
     PDFformat := nativePDFformat |}.

(** Slots [i .. i + length rest) of [outs] have been replaced by [ps]. *)
Definition filled (i : nat) (rest outs ps outs' : list string) : Prop :=
  length ps = length rest /\
  outs' = take i outs ++ ps ++ drop (i + length rest) outs.

Definition convertLoop_post (f : Form) (nativePDFformat : string)
    (rest : list string) (i : nat) (outs : list string)
    (r : Result (list string)) (evs : Trace) : Prop :=
  let options := convertOptions f nativePDFformat in
  match r with
  | Ok outs' =>
      forallb conv_ok evs = true /\
      exists ps, filled i rest outs ps outs' /\
                 Forall2 (fun inp p => In (EvPDF inp p options None) evs) rest ps
  | Err err =>
      exists pre inp out e,
        evs = pre ++ [EvPDF inp out options (Some e)] /\
        forallb conv_ok pre = true /\
        In inp rest /\
        err = convertToPDF_failure (nativePageRanges f) e
  end.

Definition reformatLoop_post (PDFformat : string)
    (rest : list string) (i : nat) (outs : list string)
    (r : Result (list string)) (evs : Trace) : Prop :=
  match r with
  | Ok outs' =>
      forallb reformat_ok evs = true /\
      exists qs, filled i rest outs qs outs' /\
                 Forall2 (fun p q => In (EvConvert PDFformat p q None) evs) rest qs
  | Err err =>
      exists pre inp out e,
        evs = pre ++ [EvConvert PDFformat inp out (Some e)] /\
        forallb reformat_ok pre = true /\
        In inp rest /\
        err = convert_failure PDFformat e
  end.

(** ** The checks on the format fields *)

(** The first pair, in the order of lines 55-74, that is set together. *)
Definition conflict (nativePDFA1aFormat : bool) (nativePDFformat PDFformat : string)
    : option error :=
  if nativePDFA1aFormat && nonempty nativePDFformat then Some both_native
  else if nativePDFA1aFormat && nonempty PDFformat then Some both_pdfFormat_A1a
  else if nonempty nativePDFformat && nonempty PDFformat then Some both_pdfFormat_native
  else None.

(** How many of the three format options a request sets. *)
Definition formats_set (f : Form) : nat :=
  ((if nativePdfA1aFormat f then 1 else 0) +
   (if nonempty (nativePdfFormat f) then 1 else 0) +
   (if nonempty (pdfFormat f) then 1 else 0))%nat.

(** [err] is the client error for a pair of options that [f] sets together. *)
Inductive names_pair (f : Form) : error -> Prop :=
| pair_native_A1a :
    nativePdfA1aFormat f = true -> nativePdfFormat f <> "" ->
    names_pair f both_native
| pair_pdfFormat_A1a :
    nativePdfA1aFormat f = true -> pdfFormat f <> "" ->
    names_pair f both_pdfFormat_A1a
| pair_pdfFormat_native :
    nativePdfFormat f <> "" -> pdfFormat f <> "" ->
    names_pair f both_pdfFormat_native.

(** The calls that convert, merge or reformat a document. *)
Definition is_conversion (ev : Event) : bool :=
  match ev with
  | EvPDF _ _ _ _ | EvCreatePNG _ _ _ | EvMerge _ _ _ | EvConvert _ _ _ _ => true
  | _ => false
  end.

Definition is_Merge (ev : Event) : bool :=
  match ev with EvMerge _ _ _ => true | _ => false end.

Definition is_Convert (ev : Event) : bool :=
  match ev with EvConvert _ _ _ _ => true | _ => false end.

Definition is_AddOutputPaths (ev : Event) : bool :=
  match ev with EvAddOutputPaths _ _ => true | _ => false end.

(** [evs] ends with [last], and every event before it satisfies [P]. *)
Definition ends_with (P : Event -> bool) (evs : Trace) (last : Event) : Prop :=
  exists pre, evs = pre ++ [last] /\ forallb P pre = true.

(** The events before the first failure of a conversion: log lines, path
    generations and conversions that succeeded. *)
Definition conv_stage (ev : Event) : bool := is_log ev || conv_ok ev.

(** No call before it has returned an error. *)
Definition succeeded (ev : Event) : bool :=
  match ev with
  | EvPDF _ _ _ (Some _) | EvMerge _ _ (Some _) | EvConvert _ _ _ (Some _)
  | EvAddOutputPaths _ (Some _) => false
  | _ => true
  end.

Definition not_AddOutputPaths (ev : Event) : bool := negb (is_AddOutputPaths ev).

(** A handler that returns [nil] has made exactly one call to
    [AddOutputPaths], its last call, and that call succeeded. *)
Definition adds_once (evs : Trace) (paths : list string) : Prop :=
  ends_with not_AddOutputPaths evs (EvAddOutputPaths paths None).

(** The value of [nativePDFformat] after line 78. *)
Definition native_format (f : Form) : string :=
  if nativePdfA1aFormat f then FormatPDFA1a else nativePdfFormat f.

(** [out] is what the pipeline made of [inp]: the PDF converted from [inp],
    or, when [pdfFormat] is set, the reformat of that PDF. *)
Definition produced (f : Form) (evs : Trace) (inp out : string) : Prop :=
  exists p,
    In (EvPDF inp p (convertOptions f (native_format f)) None) evs /\
    if nonempty (pdfFormat f)
    then In (EvConvert (pdfFormat f) p out None) evs
    else out = p.

(** What [createPNG] does below its own entry: listener, logger and command
    runner. *)
Definition worker_event (ev : Event) : bool :=
  match ev with
  | EvLog _ _ _ | EvListenerStart _ | EvListenerStop _ | EvListenerPort _
  | EvLock _ | EvSharedPort _ | EvGoUnlock | EvDebugCheck _
  | EvCommandContext _ _ _ | EvExec _ _ _ => true
  | _ => false
  end.

Definition thumbnailOptions (f : Form) (nativePDFformat : string) : Options :=
  {| Landscape := landscape f; PageRanges := "1"; PDFformat := nativePDFformat |}.

(** The events of the thumbnail loop: [.png] paths, entries of [createPNG]
    with the page selection ["1"], and what [createPNG] does. *)
Definition thumbnail_event (ev : Event) : bool :=
  match ev with
  | EvGeneratePath ext _ => String.eqb ext ".png"
  | EvCreatePNG _ _ options => String.eqb (PageRanges options) "1"
  | _ => worker_event ev
  end.

Record thumbnailLoop_post (f : Form) (nativePDFformat : string)
    (rest : list string) (i : nat) (outs : list string)
    (r : Result (list string)) (evs : Trace) : Prop := {
  thumb_events : forallb thumbnail_event evs = true;
  thumb_entry : forall inp out options,
      In (EvCreatePNG inp out options) evs ->
      options = thumbnailOptions f nativePDFformat /\
      In (EvGeneratePath ".png" out) evs;
  thumb_exec : forall args exitCode err,
      In (EvExec args exitCode (Some err)) evs ->
      exists e,
        exec_outcome (thumbnailOptions f nativePDFformat) exitCode (Some err) = Some e /\
        r = Err (thumbnail_failure "1" e);
  thumb_outs : forall outs', r = Ok outs' ->
      exists ps, filled i rest outs ps outs' /\
        Forall2 (fun inp p =>
                   In (EvCreatePNG inp p (thumbnailOptions f nativePDFformat)) evs)
                rest ps
}.

(** The value of [nativePDFformat] in [generateThumnailRoute] after line 353. *)
Definition pkg_native_format (E : Env) : string :=
  if pkg_nativePDFA1aFormat E then FormatPDFA1a else pkg_nativePDFformat E.

(** Everything [generateThumnailRoute] can do: the thumbnail loop and the
    final [AddOutputPaths]. *)
Definition thumbnailRoute_event (ev : Event) : bool :=
  thumbnail_event ev || is_AddOutputPaths ev.

Record thumbnailRoute_post (E : Env) (f : Form)
    (r : Result unit) (evs : Trace) : Prop := {
  route_events : forallb thumbnailRoute_event evs = true;
  route_entry : forall inp out options,
      In (EvCreatePNG inp out options) evs ->
      options = thumbnailOptions f (pkg_native_format E) /\
      In (EvGeneratePath ".png" out) evs;
  route_exec : forall args exitCode err,
      In (EvExec args exitCode (Some err)) evs ->
      exists e,
        exec_outcome (thumbnailOptions f (pkg_native_format E)) exitCode (Some err)
          = Some e /\
        returned r = Some (thumbnail_failure "1" e);
  route_outs : returned r = None ->
      exists outs, adds_once evs outs /\
        Forall2 (fun inp p =>
                   In (EvCreatePNG inp p (thumbnailOptions f (pkg_native_format E))) evs)
                (inputPaths f) outs
}.


(** The exit code alone decides whether [createPNG] returns [nil]. *)
Definition exit_code_decides : Prop :=
  forall E inputPath outputPath options st res evs args exitCode err,
    run (createPNG E inputPath outputPath options) st = (res, evs) ->
    In (EvExec args exitCode err) evs ->
    (exitCode = 0 -> res = None) /\ (exitCode <> 0 -> res <> None).

(** * A scripted environment and sample requests

    Paths are numbered in the order they are generated; conversions fail on
    the inputs listed; the command runner gives one fixed answer; the shared
    listener changes its port when it is locked. *)

Definition generated (tr : Trace) : nat :=
  length (List.filter (fun ev => match ev with EvGeneratePath _ _ => true | _ => false end) tr).

Definition locked (tr : Trace) : nat :=
  length (List.filter (fun ev => match ev with EvLock None => true | _ => false end) tr).

Record Script := {
  pdf_fails : list (string * error);
  merge_fails : option error;
  convert_fails : list (string * error);
  add_fails : option error;
  threshold : Z;
  lock_fails : option error;
  debug : bool;
  exec_answer : Z * option error
}.

Fixpoint assoc (k : string) (l : list (string * error)) : option error :=
  match l with
  | [] => None
  | (k', e) :: l' => if String.eqb k k' then Some e else assoc k l'
  end.

Definition scripted (s : Script) : Env := {|
  ctx_GeneratePath := fun tr ext => "/tmp/" +:+ pretty (generated tr) +:+ ext;
  ctx_AddOutputPaths := fun _ _ => add_fails s;
  unoAPI_PDF := fun _ inputPath _ _ => assoc inputPath (pdf_fails s);
  engine_Merge := fun _ _ _ => merge_fails s;
  engine_Convert := fun _ _ inputPath _ => assoc inputPath (convert_fails s);
  libreOfficeRestartThreshold := threshold s;
  unoconvBinPath := "/usr/bin/unoconv";
  mod_listener_lock := fun _ => lock_fails s;
  mod_listener_port := fun tr => 2002 + Z.of_nat (locked tr);
  listener_start := fun _ => None;
  listener_stop := fun _ => None;
  listener_port := fun _ => 3000;
  logger_Check := fun _ => debug s;
  CommandContext := fun _ _ _ => None;
  cmd_Exec := fun _ _ => exec_answer s;
  pkg_nativePDFA1aFormat := false;
  pkg_nativePDFformat := "";
  pkg_PDFformat := ""
|}.

Definition quiet : Script := {|
  pdf_fails := []; merge_fails := None; convert_fails := []; add_fails := None;
  threshold := 10; lock_fails := None; debug := false; exec_answer := (0, None)
|}.

(** Sample scripts, forms and options. *)

Definition conflicting_form : Form := {|
  inputPaths := ["a.docx"; "b.docx"]; landscape := false; nativePageRanges := "";
  nativePdfA1aFormat := true; nativePdfFormat := "PDF/A-2b"; pdfFormat := "PDF/A-3b";
  merge := true; Validate := None
|}.

Definition page_one : Options :=
  {| Landscape := false; PageRanges := "1"; PDFformat := "" |}.

Definition second_fails : Script := {|
  pdf_fails := [("b.docx", errors_New "exit status 81")];
  merge_fails := None; convert_fails := []; add_fails := None;
  threshold := 10; lock_fails := None; debug := false; exec_answer := (0, None)
|}.

Definition three_documents : Form := {|
  inputPaths := ["a.docx"; "b.docx"; "c.docx"]; landscape := false;
  nativePageRanges := ""; nativePdfA1aFormat := false; nativePdfFormat := "";
  pdfFormat := "PDF/A-2b"; merge := true; Validate := None
|}.

Definition exit_five : Script := {|
  pdf_fails := [("a.docx", Errorf "unoconv PDF" uno_ErrMalformedPageRanges)];
  merge_fails := None; convert_fails := []; add_fails := None;
  threshold := 10; lock_fails := None; debug := false;
  exec_answer := (5, Some (errors_New "exit status 5"))
|}.


Definition exit_three_no_error : Script := {|
  pdf_fails := []; merge_fails := None; convert_fails := []; add_fails := None;
  threshold := 10; lock_fails := None; debug := false; exec_answer := (3, None)
|}.

Definition exit_zero_with_error : Script := {|
  pdf_fails := []; merge_fails := None; convert_fails := []; add_fails := None;
  threshold := 10; lock_fails := None; debug := false;
  exec_answer := (0, Some (errors_New "context deadline exceeded"))
|}.

Definition no_page_ranges : Options :=
  {| Landscape := false; PageRanges := ""; PDFformat := "" |}.

Definition format_unavailable : Script := {|
  pdf_fails := []; merge_fails := None;
  convert_fails := [("/tmp/1.pdf", Errorf "pdftk" gotenberg_ErrPDFFormatNotAvailable)];
  add_fails := None;
  threshold := 10; lock_fails := None; debug := false; exec_answer := (0, None)
|}.

Definition two_to_reformat : Form := {|
  inputPaths := ["a.docx"; "b.docx"]; landscape := false; nativePageRanges := "";
  nativePdfA1aFormat := false; nativePdfFormat := ""; pdfFormat := "PDF/A-2b";
  merge := false; Validate := None
|}.

Definition one_to_merge : Form := {|
  inputPaths := ["a.docx"]; landscape := false; nativePageRanges := "";
  nativePdfA1aFormat := false; nativePdfFormat := ""; pdfFormat := "";
  merge := true; Validate := None
|}.

Definition landscape_pages : Form := {|
  inputPaths := ["a.docx"; "b.docx"]; landscape := true; nativePageRanges := "2-3";
  nativePdfA1aFormat := false; nativePdfFormat := ""; pdfFormat := "";
  merge := false; Validate := None
|}.

(** * Further specifications *)

(** ** [createPNG]: listener, command and counter *)

Definition is_ListenerStop (ev : Event) : bool :=
  match ev with EvListenerStop _ => true | _ => false end.

Definition is_GoUnlock (ev : Event) : bool :=
  match ev with EvGoUnlock => true | _ => false end.

Definition is_Exec (ev : Event) : bool :=
  match ev with EvExec _ _ _ => true | _ => false end.

(** The calls on [mod.listener], the long-running listener. *)
Definition shared_listener_event (ev : Event) : bool :=
  match ev with
  | EvLock _ | EvSharedPort _ | EvGoUnlock => true
  | _ => false
  end.

(** The calls on the listener made by [newLibreOfficeListener]. *)
Definition private_listener_event (ev : Event) : bool :=
  match ev with
  | EvListenerStart _ | EvListenerStop _ | EvListenerPort _ => true
  | _ => false
  end.

(** How many events of [evs] satisfy [P]. *)
Definition occurrences (P : Event -> bool) (evs : Trace) : nat :=
  length (List.filter P evs).

(** The events that follow the first event satisfying [P]. *)
Fixpoint following (P : Event -> bool) (evs : Trace) : Trace :=
  match evs with
  | [] => []
  | ev :: evs' => if P ev then evs' else following P evs'
  end.

(** [e] is the error a call to a collaborator of [createPNG] returned. *)
Definition failed_with (e : error) (ev : Event) : Prop :=
  match ev with
  | EvListenerStart (Some e') | EvLock (Some e')
  | EvCommandContext _ _ (Some e') | EvExec _ _ (Some e') => e' = e
  | _ => False
  end.

(** The arguments [createPNG] gives to the command, for a port and the
    answer of the debug check. *)
Definition command_line (port : Z) (verbose : bool) (inputPath outputPath : string)
    : list string :=
  ["--no-launch"; "--format"; "png"; "--port"; pretty port] ++
  (if verbose then ["-vvv"] else []) ++
  ["--output"; outputPath; inputPath].

(** The values a Go [int] takes. *)
Definition int_range (z : Z) : Prop := - 2 ^ 63 <= z < 2 ^ 63.

(** [m] gives [activeInstancesCount] back as it found it. *)
Definition keeps_count {A} (m : M A) : Prop :=
  forall st, int_range (activeInstancesCount st) ->
    activeInstancesCount (snd (m st)) = activeInstancesCount st.

(** Calls of [createPNG] that returned an error it acts on ([stop] is only
    logged). *)
Definition call_failed (ev : Event) : bool :=
  match ev with
  | EvListenerStart (Some _) | EvLock (Some _)
  | EvCommandContext _ _ (Some _) | EvExec _ _ (Some _) => true
  | _ => false
  end.

(** ** The runs of [convertRoute], written out *)

(** One round of a loop: the input, the path generated for the output, and
    the answer of the call. *)
Record Step := {
  step_in : string;
  step_out : string;
  step_res : option error
}.

Definition step_ok (s : Step) : bool :=
  match step_res s with None => true | Some _ => false end.

(** The log line of line 52. *)
Definition warning (nativePDFA1aFormat : bool) : Trace :=
  if nativePDFA1aFormat then [EvLog WarnLevel deprecation_warning None] else [].

(** The events of the conversion loop for the rounds [steps]. *)
Definition conv_events (options : Options) (steps : list Step) : Trace :=
  flat_map (fun s => [EvGeneratePath ".pdf" (step_out s);
                      EvPDF (step_in s) (step_out s) options (step_res s)]) steps.

(** The events of the reformat loop for the rounds [steps]. *)
Definition reformat_events (PDFformat : string) (steps : list Step) : Trace :=
  flat_map (fun s => [EvGeneratePath ".pdf" (step_out s);
                      EvConvert PDFformat (step_in s) (step_out s) (step_res s)]) steps.

(** [fmt.Errorf(prefix + ": %w", err)] when [err != nil]. *)
Definition wrapped (prefix : string) (err : option error) : option error :=
  match err with
  | Some e => Some (Errorf prefix e)
  | None => None
  end.

(** After a successful merge into [merged] (lines 118-156). *)
Inductive merged_tail (f : Form) (merged : string) : option error -> Trace -> Prop :=
| merged_added r :
    nonempty (pdfFormat f) = false ->
    merged_tail f merged (wrapped "add output path" r) [EvAddOutputPaths [merged] r]
| merged_reformat_fails out e :
    nonempty (pdfFormat f) = true ->
    merged_tail f merged (Some (convert_failure (pdfFormat f) e))
      [EvGeneratePath ".pdf" out; EvConvert (pdfFormat f) merged out (Some e)]
| merged_reformatted out r :
    nonempty (pdfFormat f) = true ->
    merged_tail f merged (wrapped "add output path" r)
      [EvGeneratePath ".pdf" out; EvConvert (pdfFormat f) merged out None;
       EvAddOutputPaths [out] r].

(** Without a merge, from the converted files [outs] (lines 165-202). *)
Inductive unmerged_tail (f : Form) (outs : list string) : option error -> Trace -> Prop :=
| unmerged_added r :
    nonempty (pdfFormat f) = false ->
    unmerged_tail f outs (wrapped "add output paths" r) [EvAddOutputPaths outs r]
| unmerged_reformat_fails before inp out e :
    nonempty (pdfFormat f) = true ->
    forallb step_ok before = true ->
    (map step_in before ++ [inp]) `prefix_of` outs ->
    unmerged_tail f outs (Some (convert_failure (pdfFormat f) e))
      (reformat_events (pdfFormat f)
         (before ++ [{| step_in := inp; step_out := out; step_res := Some e |}]))
| unmerged_reformatted steps r :
    nonempty (pdfFormat f) = true ->
    forallb step_ok steps = true ->
    map step_in steps = outs ->
    unmerged_tail f outs (wrapped "add output paths" r)
      (reformat_events (pdfFormat f) steps ++
       [EvAddOutputPaths (map step_out steps) r]).

(** What [convertRoute] does once the form validated and the formats do not
    conflict. *)
Inductive conversion (f : Form) : option error -> Trace -> Prop :=
| conversion_fails before inp out e :
    forallb step_ok before = true ->
    (map step_in before ++ [inp]) `prefix_of` inputPaths f ->
    conversion f (Some (convertToPDF_failure (nativePageRanges f) e))
      (conv_events (convertOptions f (native_format f))
         (before ++ [{| step_in := inp; step_out := out; step_res := Some e |}]))
| conversion_merge_fails steps merged e :
    forallb step_ok steps = true ->
    map step_in steps = inputPaths f ->
    (1 < length (inputPaths f))%nat -> merge f = true ->
    conversion f (Some (Errorf "merge PDFs" e))
      (conv_events (convertOptions f (native_format f)) steps ++
       [EvGeneratePath ".pdf" merged; EvMerge (map step_out steps) merged (Some e)])
| conversion_merged steps merged res tail :
    forallb step_ok steps = true ->
    map step_in steps = inputPaths f ->
    (1 < length (inputPaths f))%nat -> merge f = true ->
    merged_tail f merged res tail ->
    conversion f res
      (conv_events (convertOptions f (native_format f)) steps ++
       [EvGeneratePath ".pdf" merged; EvMerge (map step_out steps) merged None] ++
       tail)
| conversion_unmerged steps res tail :
    forallb step_ok steps = true ->
    map step_in steps = inputPaths f ->
    ((1 <? length (inputPaths f))%nat && merge f = false) ->
    unmerged_tail f (map step_out steps) res tail ->
    conversion f res
      (conv_events (convertOptions f (native_format f)) steps ++ tail).

(** Every run of [convertRoute]. *)
Inductive convertRoute_runs (f : Form) : option error -> Trace -> Prop :=
| runs_invalid e :
    Validate f = Some e ->
    convertRoute_runs f (Some (Errorf "validate form data" e)) []
| runs_conflict e :
    Validate f = None ->
    conflict (nativePdfA1aFormat f) (nativePdfFormat f) (pdfFormat f) = Some e ->
    convertRoute_runs f (Some e) (warning (nativePdfA1aFormat f))
| runs_conversion res evs :
    Validate f = None ->
    conflict (nativePdfA1aFormat f) (nativePdfFormat f) (pdfFormat f) = None ->
    conversion f res evs ->
    convertRoute_runs f res (warning (nativePdfA1aFormat f) ++ evs).

(** The conversion loop, round by round. *)
Definition convertLoop_rounds (f : Form) (nativePDFformat : string)
    (rest : list string) (i : nat) (outs : list string)
    (r : Result (list string)) (evs : Trace) : Prop :=
  exists steps,
    evs = conv_events (convertOptions f nativePDFformat) steps /\
    match r with
    | Ok outs' =>
        forallb step_ok steps = true /\
        map step_in steps = rest /\
        filled i rest outs (map step_out steps) outs'
    | Err err =>
        exists before inp out e,
          steps = before ++ [{| step_in := inp; step_out := out; step_res := Some e |}] /\
          forallb step_ok before = true /\
          (map step_in before ++ [inp]) `prefix_of` rest /\
          err = convertToPDF_failure (nativePageRanges f) e
    end.

(** The reformat loop, round by round. *)
Definition reformatLoop_rounds (PDFformat : string)
    (rest : list string) (i : nat) (outs : list string)
    (r : Result (list string)) (evs : Trace) : Prop :=
  exists steps,
    evs = reformat_events PDFformat steps /\
    match r with
    | Ok outs' =>
        forallb step_ok steps = true /\
        map step_in steps = rest /\
        filled i rest outs (map step_out steps) outs'
    | Err err =>
        exists before inp out e,
          steps = before ++ [{| step_in := inp; step_out := out; step_res := Some e |}] /\
          forallb step_ok before = true /\
          (map step_in before ++ [inp]) `prefix_of` rest /\
          err = convert_failure PDFformat e
    end.

(** The inputs given to [unoAPI.PDF], in the order of the calls. *)
Definition pdf_inputs (evs : Trace) : list string :=
  flat_map (fun ev => match ev with EvPDF inp _ _ _ => [inp] | _ => [] end) evs.

(** The outputs of the calls to [unoAPI.PDF] that succeeded, in order. *)
Definition pdf_outputs (evs : Trace) : list string :=
  flat_map (fun ev => match ev with EvPDF _ out _ None => [out] | _ => [] end) evs.

(** The inputs given to [engine.Convert], in the order of the calls. *)
Definition convert_inputs (evs : Trace) : list string :=
  flat_map (fun ev => match ev with EvConvert _ inp _ _ => [inp] | _ => [] end) evs.

(** A log line or a call that succeeded. *)
Definition went_well (ev : Event) : bool := succeeded ev && negb (call_failed ev).

(** ** [generateThumnailRoute] *)

(** The inputs given to [createPNG], in the order of the calls. *)
Definition png_inputs (evs : Trace) : list string :=
  flat_map (fun ev => match ev with EvCreatePNG inp _ _ => [inp] | _ => [] end) evs.

(** The thumbnail loop: documents visited in order, and what follows a call
    that failed. *)
Definition thumbnailLoop_order (rest : list string)
    (r : Result (list string)) (evs : Trace) : Prop :=
  png_inputs evs `prefix_of` rest /\
  match r with
  | Ok _ => existsb call_failed evs = false /\ png_inputs evs = rest
  | Err _ =>
      existsb call_failed evs = true /\
      forallb worker_event (following call_failed evs) = true
  end.

(** Two forms that [generateThumnailRoute] cannot tell apart. *)
Definition same_thumbnail_request (f f' : Form) : Prop :=
  inputPaths f = inputPaths f' /\ landscape f = landscape f' /\ Validate f = Validate f'.

(** [b] comes immediately after [a] in [evs]. *)
Definition follows (a b : Event) (evs : Trace) : Prop :=
  exists pre post, evs = pre ++ a :: b :: post.

(** Everything before it succeeded and was not a call to [AddOutputPaths]. *)
Definition before_adding (ev : Event) : bool := succeeded ev && not_AddOutputPaths ev.

(** The file a call writes. *)
Definition output_of (ev : Event) : option string :=
  match ev with
  | EvPDF _ out _ _ | EvMerge _ out _ | EvConvert _ _ out _ => Some out
  | _ => None
  end.

(** The calls [convertRoute] makes: logging, path generation, the
    conversion API, the PDF engine and the response. *)
Definition pipeline_event (ev : Event) : bool :=
  match ev with
  | EvLog _ _ _ | EvGeneratePath _ _ | EvPDF _ _ _ _ | EvMerge _ _ _
  | EvConvert _ _ _ _ | EvAddOutputPaths _ _ => true
  | _ => false
  end.

(** ** More sample scripts and requests *)

Definition private_listener : Script := {|
  pdf_fails := []; merge_fails := None; convert_fails := []; add_fails := None;
  threshold := 0; lock_fails := None; debug := true;
  exec_answer := (1, Some (errors_New "exit status 1"))
|}.

Definition lock_refused : Script := {|
  pdf_fails := []; merge_fails := None; convert_fails := []; add_fails := None;
  threshold := 10; lock_fails := Some (errors_New "context deadline exceeded");
  debug := false; exec_answer := (0, None)
|}.

Definition merge_refused : Script := {|
  pdf_fails := []; merge_fails := Some (errors_New "pdftk: exit status 1");
  convert_fails := []; add_fails := None;
  threshold := 10; lock_fails := None; debug := false; exec_answer := (0, None)
|}.

Definition add_refused : Script := {|
  pdf_fails := []; merge_fails := None; convert_fails := [];
  add_fails := Some (errors_New "path not in working directory");
  threshold := 10; lock_fails := None; debug := false; exec_answer := (0, None)
|}.

Definition no_documents : Form := {|
  inputPaths := []; landscape := false; nativePageRanges := "";
  nativePdfA1aFormat := false; nativePdfFormat := ""; pdfFormat := "PDF/A-2b";
  merge := true; Validate := None
|}.

(** The counter at the largest value of a 64-bit [int]. *)
Definition counter_at_max : State :=
  {| trace := []; activeInstancesCount := 2 ^ 63 - 1 |}.

Definition one_native_format : Form := {|
  inputPaths := ["a.docx"; "b.docx"]; landscape := false; nativePageRanges := "";
  nativePdfA1aFormat := true; nativePdfFormat := ""; pdfFormat := "";
  merge := false; Validate := None
|}.

(** * Proofs *)

(** ** The model at work *)

(** Two documents, no merge, reformat to PDF/A-2b. *)
Example convertRoute_two_documents :
  run (convertRoute (scripted quiet) two_to_reformat) initial =
  (None,
   [EvGeneratePath ".pdf" "/tmp/0.pdf";
    EvPDF "a.docx" "/tmp/0.pdf" (convertOptions two_to_reformat "") None;
    EvGeneratePath ".pdf" "/tmp/1.pdf";
    EvPDF "b.docx" "/tmp/1.pdf" (convertOptions two_to_reformat "") None;
    EvGeneratePath ".pdf" "/tmp/2.pdf";
    EvConvert "PDF/A-2b" "/tmp/0.pdf" "/tmp/2.pdf" None;
    EvGeneratePath ".pdf" "/tmp/3.pdf";
    EvConvert "PDF/A-2b" "/tmp/1.pdf" "/tmp/3.pdf" None;
    EvAddOutputPaths ["/tmp/2.pdf"; "/tmp/3.pdf"] None]).
Proof. vm_compute. reflexivity. Qed.

(** Three documents, the second conversion fails: the third is never
    started, nothing is merged although [merge] is set. *)
Example convertRoute_second_fails :
  run (convertRoute (scripted second_fails) three_documents) initial =
  (Some (Errorf "convert to PDF" (errors_New "exit status 81")),
   [EvGeneratePath ".pdf" "/tmp/0.pdf";
    EvPDF "a.docx" "/tmp/0.pdf" (convertOptions three_documents "") None;
    EvGeneratePath ".pdf" "/tmp/1.pdf";
    EvPDF "b.docx" "/tmp/1.pdf" (convertOptions three_documents "")
      (Some (errors_New "exit status 81"))]).
Proof. vm_compute. reflexivity. Qed.

(** The shared listener is on port 2002 before the lock and on port 2003
    once the lock is held: the command line carries 2003. *)
Example createPNG_shared_listener :
  mod_listener_port (scripted quiet) [] = 2002 /\
  run (createPNG (scripted quiet) "a.docx" "/tmp/0.png" page_one) initial =
  (None,
   [EvCreatePNG "a.docx" "/tmp/0.png" page_one;
    EvLock None;
    EvSharedPort 2003;
    EvDebugCheck false;
    EvCommandContext "/usr/bin/unoconv"
      ["--no-launch"; "--format"; "png"; "--port"; "2003";
       "--output"; "/tmp/0.png"; "a.docx"] None;
    EvLog DebugLevel "print to PNG with: {Landscape:false PageRanges:1 PDFformat:}" None;
    EvExec ["--no-launch"; "--format"; "png"; "--port"; "2003";
            "--output"; "/tmp/0.png"; "a.docx"] 0 None;
    EvGoUnlock]).
Proof. split; vm_compute; reflexivity. Qed.

(** ** Rules *)

Section Rules.
Context {A B : Type}.
Implicit Types (h : Trace) (Q : Result A -> Trace -> Prop).

Lemma wp_ret h Q (a : A) : Q (Ok a) [] -> wp (ret a) h Q.
Proof. intros HQ st <-. exists []. by rewrite app_nil_r. Qed.

Lemma wp_raise h Q e : Q (Err e) [] -> wp (raise e) h Q.
Proof. intros HQ st <-. exists []. by rewrite app_nil_r. Qed.

Lemma wp_call h Q (ask : Trace -> A) ev :
  (forall a, a = ask h -> Q (Ok a) [ev a]) -> wp (call ask ev) h Q.
Proof. intros HQ st <-. exists [ev (ask (trace st))]. split; [done | by apply HQ]. Qed.

Lemma wp_conseq h Q Q' (m : M A) :
  wp m h Q -> (forall r evs, Q r evs -> Q' r evs) -> wp m h Q'.
Proof. intros Hm HQ st Hst. destruct (Hm st Hst) as (evs & ? & ?). eauto. Qed.

Lemma wp_bind h (m : M A) (k : A -> M B) (Q : Result B -> Trace -> Prop) :
  wp m h (fun r evs1 =>
            match r with
            | Err e => Q (Err e) evs1
            | Ok a => wp (k a) (h ++ evs1) (fun r2 evs2 => Q r2 (evs1 ++ evs2))
            end) ->
  wp (bind m k) h Q.
Proof.
  intros Hm st Hst. destruct (Hm st Hst) as (evs1 & Htr & Hk).
  unfold bind. destruct (m st) as [[a|e] st1]; simpl in *.
  - destruct (Hk st1 Htr) as (evs2 & Htr2 & HQ).
    exists (evs1 ++ evs2). by rewrite Htr2, <- app_assoc.
  - by exists evs1.
Qed.

Lemma wp_invoke h (callee : M A) (Q : Result (option error) -> Trace -> Prop) :
  wp callee h (fun r evs => Q (Ok (returned r)) evs) -> wp (invoke callee) h Q.
Proof.
  intros Hm st Hst. destruct (Hm st Hst) as (evs & Htr & HQ).
  unfold invoke. destruct (callee st) as [r st1]. by exists evs.
Qed.

Lemma wp_with_defer h (deferred : M unit) (body : M A) Q :
  wp body h (fun r evs1 =>
               wp deferred (h ++ evs1) (fun _ evs2 => Q r (evs1 ++ evs2))) ->
  wp (with_defer deferred body) h Q.
Proof.
  intros Hm st Hst. destruct (Hm st Hst) as (evs1 & Htr & Hd).
  unfold with_defer. destruct (body st) as [r st1]; simpl in *.
  destruct (Hd st1 Htr) as (evs2 & Htr2 & HQ).
  exists (evs1 ++ evs2). by rewrite Htr2, <- app_assoc.
Qed.
End Rules.

Lemma wp_log h lvl msg err (Q : Result unit -> Trace -> Prop) :
  Q (Ok tt) [EvLog lvl msg err] -> wp (log lvl msg err) h Q.
Proof. intros HQ st <-. by exists [EvLog lvl msg err]. Qed.

Lemma wp_record h ev (Q : Result unit -> Trace -> Prop) :
  Q (Ok tt) [ev] -> wp (record ev) h Q.
Proof. intros HQ st <-. by exists [ev]. Qed.

Lemma wp_count h d (Q : Result unit -> Trace -> Prop) :
  Q (Ok tt) [] -> wp (count d) h Q.
Proof. intros HQ st <-. exists []. by rewrite app_nil_r. Qed.

Lemma wp_when h b (m : M unit) (Q : Result unit -> Trace -> Prop) :
  (b = true -> wp m h Q) -> (b = false -> Q (Ok tt) []) -> wp (when b m) h Q.
Proof. destruct b; simpl; intros H1 H2; [auto | apply wp_ret; auto]. Qed.

(** What [wp] says about [run]. *)
Lemma wp_run {A} (m : M A) st (Q : Result A -> Trace -> Prop) res evs :
  wp m (trace st) Q -> run m st = (res, evs) ->
  exists r, res = returned r /\ Q r evs.
Proof.
  intros Hm Hrun. destruct (Hm st eq_refl) as (evs' & Htr & HQ).
  unfold run in Hrun. destruct (m st) as [r st1]; simpl in *.
  rewrite Htr, drop_app_length in Hrun. injection Hrun as <- <-. eauto.
Qed.

(** One step of symbolic execution. *)
Ltac wp_step :=
  lazymatch goal with
  | |- wp (bind _ _) _ _ => apply wp_bind
  | |- wp (ret _) _ _ => apply wp_ret
  | |- wp (raise _) _ _ => apply wp_raise
  | |- wp (call _ _) _ _ => apply wp_call; intros ? ?
  | |- wp (log _ _ _) _ _ => apply wp_log
  | |- wp (GeneratePath _ _) _ _ => apply wp_call; intros ? ?
  | |- wp (AddOutputPaths _ _) _ _ => apply wp_call; intros ? ?
  | |- wp (with_defer _ _) _ _ => apply wp_with_defer
  | |- wp (invoke _) _ _ => apply wp_invoke
  | |- wp (record _) _ _ => apply wp_record
  | |- wp (count _) _ _ => apply wp_count
  | |- wp (when ?b _) _ _ => apply wp_when; intros ?
  | |- wp (match ?x with _ => _ end) _ _ => destruct x eqn:?
  end; cbn beta iota zeta delta [fst snd app].

Ltac wp_steps := repeat wp_step.

Lemma createPNG_exec_outcome E inputPath outputPath options h :
  wp (createPNG E inputPath outputPath options) h (fun r evs =>
    forall args exitCode err,
      In (EvExec args exitCode err) evs ->
      returned r = exec_outcome options exitCode err).
Proof.
  unfold createPNG, createPNG_acquire, createPNG_run.
  wp_steps.
  all: intros args exitCode err Hin; simpl in Hin.
  all: repeat (destruct Hin as [Hin|Hin]; try discriminate Hin); try contradiction.
  all: injection Hin as <- <- <-; unfold exec_outcome.
  all: repeat match goal with
              | H : snd _ = _ |- _ => rewrite H; clear H
              | H : andb _ _ = _ |- _ => rewrite H; clear H
              end.
  all: reflexivity.
Qed.

Ltac createPNG_leaves :=
  unfold createPNG, createPNG_acquire, createPNG_run; wp_steps.

(** Splitting a list written out in full around one of its elements. *)
Ltac split_cases H pre :=
  repeat (destruct pre as [|? pre]; simpl in H;
          [ first [discriminate H | inversion H; subst; clear H]
          | first [discriminate H | injection H as <- H] ]).

Lemma createPNG_malformed_only E inputPath outputPath options h :
  wp (createPNG E inputPath outputPath options) h (fun r evs =>
    returned r = Some ErrMalformedPageRanges ->
    nonempty (PageRanges options) = true /\
    exists args err, In (EvExec args 5 (Some err)) evs).
Proof.
  createPNG_leaves.
  all: simpl; intros Hr; try discriminate Hr.
  all: try (unfold ErrMalformedPageRanges, uno_ErrMalformedPageRanges in Hr; discriminate Hr).
  all: match goal with H : _ = true |- _ => apply andb_true_iff in H as [Hc Hn] end.
  all: apply Z.eqb_eq in Hc; split; [exact Hn|].
  all: rewrite Hc; do 2 eexists; simpl.
  all: repeat first [left; reflexivity | right].
Qed.

Lemma createPNG_port_after_lock E inputPath outputPath options h :
  libreOfficeRestartThreshold E <> 0 ->
  wp (createPNG E inputPath outputPath options) h (fun _ evs => port_after_lock E h evs).
Proof.
  intros Hthr. createPNG_leaves; try contradiction.
  all: split; [|split].
  all: try (intros pre port post Hsplit; split_cases Hsplit pre;
            (split; [simpl; auto | by rewrite <- app_assoc])).
  all: try (intros pre bin args res post Hsplit; split_cases Hsplit pre;
            (eexists; split; [simpl; eauto |]);
            match goal with |- context [if ?b then _ else _] => by destruct b end).
  all: intros e' Hin ev Hev; simpl in Hin, Hev.
  all: destruct_or?; simplify_eq; done.
Qed.

Lemma filled_nil i outs : filled i [] outs [] outs.
Proof.
  split; [done|]. simpl. by rewrite Nat.add_0_r, take_drop.
Qed.

Lemma filled_cons i x rest (outs : list string) p ps outs' :
  (i < length outs)%nat ->
  filled (S i) rest (<[i := p]> outs) ps outs' ->
  filled i (x :: rest) outs (p :: ps) outs'.
Proof.
  intros Hi [Hlen ->]. split; [simpl; by rewrite Hlen|].
  rewrite drop_insert_lt by lia.
  rewrite (take_S_r _ _ p) by (by apply list_lookup_insert_eq).
  rewrite take_insert_ge by lia.
  rewrite <- app_assoc. simpl. by rewrite Nat.add_succ_r.
Qed.

Lemma filled_all rest ps outs' :
  filled 0 rest (replicate (length rest) "") ps outs' -> outs' = ps.
Proof.
  intros [Hlen ->]. simpl.
  rewrite drop_ge by (by rewrite length_replicate). by rewrite app_nil_r.
Qed.

Lemma convertLoop_spec E f nativePDFformat rest :
  forall i outs h,
    (i + length rest <= length outs)%nat ->
    wp (convertRoute_convertLoop E f nativePDFformat i rest outs) h
       (convertLoop_post f nativePDFformat rest i outs).
Proof.
  induction rest as [|inputPath rest IH]; intros i outs h Hlen; simpl in *.
  - apply wp_ret. split; [done|]. exists []. split; [apply filled_nil | constructor].
  - wp_steps.
    + exists [EvGeneratePath ".pdf" a], inputPath, (<[i:=a]> outs !!! i), e.
      repeat split; simpl; auto.
    + eapply wp_conseq.
      { apply IH. rewrite length_insert. lia. }
      intros [outs'|err] evs; simpl.
      * intros (Hok & ps & Hfill & Hall). split; [exact Hok|].
        exists (a :: ps). split; [apply filled_cons; [lia | done]|].
        constructor.
        -- right. left. f_equal. rewrite list_lookup_total_insert_eq by lia. done.
        -- eapply Forall2_impl; [exact Hall|]. simpl. auto.
      * intros (pre & inp & out & e & -> & Hok & Hin & ->).
        exists (EvGeneratePath ".pdf" a :: EvPDF inputPath (<[i:=a]> outs !!! i)
                  (convertOptions f nativePDFformat) None :: pre), inp, out, e.
        repeat split; simpl; auto.
Qed.

Lemma reformatLoop_spec E PDFformat rest :
  forall i outs h,
    (i + length rest <= length outs)%nat ->
    wp (convertRoute_reformatLoop E PDFformat i rest outs) h
       (reformatLoop_post PDFformat rest i outs).
Proof.
  induction rest as [|outputPath rest IH]; intros i outs h Hlen; simpl in *.
  - apply wp_ret. split; [done|]. exists []. split; [apply filled_nil | constructor].
  - wp_steps.
    + exists [EvGeneratePath ".pdf" a], outputPath, (<[i:=a]> outs !!! i), e.
      repeat split; simpl; auto.
    + eapply wp_conseq.
      { apply IH. rewrite length_insert. lia. }
      intros [outs'|err] evs; simpl.
      * intros (Hok & qs & Hfill & Hall). split; [exact Hok|].
        exists (a :: qs). split; [apply filled_cons; [lia | done]|].
        constructor.
        -- right. left. f_equal. rewrite list_lookup_total_insert_eq by lia. done.
        -- eapply Forall2_impl; [exact Hall|]. simpl. auto.
      * intros (pre & inp & out & e & -> & Hok & Hin & ->).
        exists (EvGeneratePath ".pdf" a :: EvConvert PDFformat outputPath
                  (<[i:=a]> outs !!! i) None :: pre), inp, out, e.
        repeat split; simpl; auto.
Qed.

Lemma check_formats_spec a n p h :
  wp (check_formats a n p) h (fun r evs =>
    forallb is_log evs = true /\
    match conflict a n p with
    | Some e => r = Err e
    | None => r = Ok (if a then FormatPDFA1a else n) /\
              (a = false \/ (nonempty n = false /\ nonempty p = false)) /\
              (nonempty n = false \/ nonempty p = false)
    end).
Proof.
  unfold check_formats, conflict.
  destruct a, (nonempty n), (nonempty p); simpl; wp_steps; try discriminate.
  all: simpl; auto 6.
Qed.

Lemma nonempty_true s : nonempty s = true <-> s <> "".
Proof.
  unfold nonempty. rewrite negb_true_iff. split.
  - intros H ->. discriminate H.
  - intros H. apply String.eqb_neq. exact H.
Qed.

Lemma nonempty_false s : nonempty s = false <-> s = "".
Proof.
  unfold nonempty. rewrite negb_false_iff. apply String.eqb_eq.
Qed.

Lemma forallb_weaken {X} (P Q : X -> bool) l :
  (forall x, P x = true -> Q x = true) -> forallb P l = true -> forallb Q l = true.
Proof.
  intros HPQ. rewrite !forallb_forall. auto.
Qed.

Lemma forallb_not_In {X} (P : X -> bool) l x :
  forallb P l = true -> P x = false -> ~ In x l.
Proof.
  intros Hall Hx Hin. rewrite forallb_forall in Hall.
  apply Hall in Hin. congruence.
Qed.

(** ** Symbolic execution of the handlers *)

Ltac handler_step :=
  lazymatch goal with
  | |- wp (check_formats _ _ _) _ _ =>
      let Hlog := fresh "Hlog" in
      let Hc := fresh "Hc" in
      let Hconf := fresh "Hconf" in
      eapply wp_conseq; [apply check_formats_spec|];
      intros ? ? [Hlog Hc];
      destruct (conflict _ _ _) eqn:Hconf;
      [ subst | destruct Hc as (-> & ? & ?) ];
      cbn beta iota
  | |- wp (convertRoute_convertLoop _ _ _ _ _ _) _ _ =>
      let Hpost := fresh "Hpost" in
      let Hok := fresh "Hconv" in
      let Hall := fresh "Hpdf" in
      let Hfill := fresh "Hfill" in
      eapply wp_conseq; [apply convertLoop_spec; rewrite length_replicate; lia|];
      intros [?|?] ? Hpost; unfold convertLoop_post in Hpost;
      cbn beta iota zeta in Hpost;
      [ destruct Hpost as (Hok & ? & Hfill & Hall); apply filled_all in Hfill; subst
      | destruct Hpost as (? & ? & ? & ? & -> & Hok & ? & ->) ];
      cbn beta iota
  | |- wp (convertRoute_reformatLoop _ _ _ _ _) _ _ =>
      let Hpost := fresh "Hpost" in
      let Hok := fresh "Hreformat" in
      let Hall := fresh "Hconvert" in
      let Hfill := fresh "Hfill" in
      eapply wp_conseq; [apply reformatLoop_spec; rewrite length_replicate; lia|];
      intros [?|?] ? Hpost; unfold reformatLoop_post in Hpost;
      cbn beta iota zeta in Hpost;
      [ destruct Hpost as (Hok & ? & Hfill & Hall); apply filled_all in Hfill; subst
      | destruct Hpost as (? & ? & ? & ? & -> & Hok & ? & ->) ];
      cbn beta iota
  | |- _ => wp_step
  end.

Ltac convertRoute_leaves :=
  unfold convertRoute, convertRoute_merge, convertRoute_each;
  repeat handler_step.

(** Membership in a concatenation of event lists, piece by piece. *)
Ltac in_split H :=
  repeat (apply in_app_or in H; destruct H as [H|H]).

Ltac in_absurd H :=
  first
    [ by (simpl in H; destruct_or?; try discriminate H; try contradiction)
    | lazymatch type of H with
      | In _ ?l =>
          match goal with
          | Hall : forallb _ l = true |- _ =>
              by (eapply forallb_not_In in H; [ | exact Hall | reflexivity ])
          end
      end ].

Ltac event_cases :=
  let ev := fresh "ev" in
  let Hev := fresh "Hev" in
  intros ev Hev; destruct ev; simpl in *;
  repeat case_match; simpl in *; try done.

Ltac forallb_solve :=
  repeat (rewrite forallb_app; apply andb_true_intro; split);
  first
    [ reflexivity
    | lazymatch goal with
      | |- forallb _ ?l = true =>
          match goal with
          | Hall : forallb _ l = true |- _ =>
              eapply forallb_weaken; [|exact Hall]; by event_cases
          end
      end ].

Lemma ends_with_one P last : ends_with P [last] last.
Proof. by exists []. Qed.

Lemma ends_with_cons P ev evs last :
  P ev = true -> ends_with P evs last -> ends_with P (ev :: evs) last.
Proof.
  intros Hev (pre & -> & Hpre). exists (ev :: pre). split; [done|].
  simpl. by rewrite Hev.
Qed.

Lemma ends_with_app P evs1 evs2 last :
  forallb P evs1 = true -> ends_with P evs2 last -> ends_with P (evs1 ++ evs2) last.
Proof.
  intros H1 (pre & -> & Hpre). exists (evs1 ++ pre). split.
  - by rewrite app_assoc.
  - rewrite forallb_app, H1, Hpre. done.
Qed.

Ltac ends_with_solve :=
  repeat first
    [ apply ends_with_one
    | apply ends_with_cons; [reflexivity|]
    | apply ends_with_app; [forallb_solve|] ].

Lemma convertRoute_first_failure E f h :
  wp (convertRoute E f) h (fun r evs =>
    forall inp out opts e,
      In (EvPDF inp out opts (Some e)) evs ->
      ends_with conv_stage evs (EvPDF inp out opts (Some e)) /\
      returned r = Some (convertToPDF_failure (nativePageRanges f) e)).
Proof.
  convertRoute_leaves.
  all: intros inp out opts e' Hin.
  all: in_split Hin; try in_absurd Hin.
  destruct Hin as [Hin|[]]. injection Hin as -> -> -> ->.
  split; [ends_with_solve | reflexivity].
Qed.

Lemma convertRoute_reformat_failure E f h :
  wp (convertRoute E f) h (fun r evs =>
    forall format inp out e,
      In (EvConvert format inp out (Some e)) evs ->
      format = pdfFormat f /\
      nonempty (pdfFormat f) = true /\
      ends_with succeeded evs (EvConvert format inp out (Some e)) /\
      returned r = Some (convert_failure (pdfFormat f) e)).
Proof.
  convertRoute_leaves.
  all: intros format inp out e' Hin.
  all: in_split Hin; try in_absurd Hin.
  all: simpl in Hin; destruct_or?; try discriminate Hin; try contradiction.
  all: injection Hin as <- <- <- <-.
  all: (split; [reflexivity|split; [reflexivity|split; [|reflexivity]]]).
  all: ends_with_solve.
Qed.

Lemma convertRoute_single E f h :
  length (inputPaths f) = 1%nat ->
  wp (convertRoute E f) h (fun r evs =>
    (forall ev, In ev evs -> is_Merge ev = false) /\
    (returned r = None -> exists p, adds_once evs [p])).
Proof.
  intros Hone. convertRoute_leaves.
  all: repeat match goal with
         | H : Forall2 _ _ _ |- _ => apply Forall2_length in H
         end.
  all: try match goal with
         | H : _ && _ = true |- _ =>
             apply andb_true_iff in H as [H _]; apply Nat.ltb_lt in H; lia
         end.
  all: (split; [intros ev Hin; in_split Hin | intros Hr; try discriminate Hr]).
  all: try match goal with
         | Hin : In ?ev ?l |- is_Merge ?ev = false =>
             first
               [ by (simpl in Hin; destruct_or?; subst; try contradiction)
               | match goal with
                 | Hall : forallb _ l = true |- _ =>
                     rewrite forallb_forall in Hall; apply Hall in Hin;
                     by destruct ev
                 end ]
         end.
  - destruct x0 as [|p [|]]; simpl in *; try lia.
    exists p. unfold adds_once. ends_with_solve.
  - destruct x as [|p [|]]; simpl in *; try lia.
    exists p. unfold adds_once. ends_with_solve.
Qed.

Lemma convertRoute_unmerged E f h :
  merge f = false ->
  wp (convertRoute E f) h (fun r evs =>
    returned r = None ->
    exists outs, adds_once evs outs /\ Forall2 (produced f evs) (inputPaths f) outs).
Proof.
  intros Hmerge. convertRoute_leaves.
  all: try match goal with
         | H : _ && _ = true |- _ =>
             apply andb_true_iff in H as [_ H]; congruence
         end.
  all: intros Hr; try discriminate Hr.
  all: unfold produced, native_format.
  all: match goal with H : nonempty (pdfFormat _) = _ |- _ => rewrite H end.
  - exists x0. split; [unfold adds_once; ends_with_solve|].
    eapply Forall2_trans; [|exact Hpdf|exact Hconvert].
    intros inp p out Hp Hq. exists p. split.
    + apply in_or_app. right. apply in_or_app. by left.
    + apply in_or_app. right. apply in_or_app. right. apply in_or_app. by left.
  - exists x. split; [unfold adds_once; ends_with_solve|].
    eapply Forall2_impl; [exact Hpdf|].
    intros inp p Hp. exists p. split; [|done].
    apply in_or_app. right. apply in_or_app. by left.
Qed.

(** ** [createPNG] inside [generateThumnailRoute] *)

Lemma wp_and {A} (m : M A) h (Q1 Q2 : Result A -> Trace -> Prop) :
  wp m h Q1 -> wp m h Q2 -> wp m h (fun r evs => Q1 r evs /\ Q2 r evs).
Proof.
  intros H1 H2 st Hst.
  destruct (H1 st Hst) as (evs1 & Htr1 & HQ1).
  destruct (H2 st Hst) as (evs2 & Htr2 & HQ2).
  rewrite Htr1 in Htr2. apply app_inv_head in Htr2. subst evs2.
  exists evs1. auto.
Qed.

Lemma createPNG_frame E inputPath outputPath options h :
  wp (createPNG E inputPath outputPath options) h (fun _ evs =>
    exists rest,
      evs = EvCreatePNG inputPath outputPath options :: rest /\
      forallb worker_event rest = true).
Proof.
  createPNG_leaves.
  all: eexists; split; reflexivity.
Qed.

Lemma worker_thumbnail_event l :
  forallb worker_event l = true -> forallb thumbnail_event l = true.
Proof. apply forallb_weaken. by intros []. Qed.

Lemma worker_not_entry l inp out options :
  forallb worker_event l = true -> ~ In (EvCreatePNG inp out options) l.
Proof. intros Hall. by eapply forallb_not_In. Qed.

Lemma thumbnailLoop_spec E f nativePDFformat rest :
  forall i outs h,
    (i + length rest <= length outs)%nat ->
    wp (generateThumnailRoute_loop E f nativePDFformat i rest outs) h
       (thumbnailLoop_post f nativePDFformat rest i outs).
Proof.
  induction rest as [|inputPath rest IH]; intros i outs h Hlen; simpl in *.
  - apply wp_ret. split; try done.
    intros outs' [= <-]. exists []. split; [apply filled_nil | constructor].
  - apply wp_bind. apply wp_call. intros p _. cbn beta iota.
    apply wp_bind. apply wp_invoke.
    eapply wp_conseq.
    { apply wp_and; [apply createPNG_frame | apply createPNG_exec_outcome]. }
    intros r0 evs0 [(rest0 & -> & Hworker) Hexec]. cbn beta iota.
    fold (thumbnailOptions f nativePDFformat) in *.
    set (options := thumbnailOptions f nativePDFformat) in *.
    set (out := <[i:=p]> outs !!! i) in *.
    assert (Hout : out = p).
    { subst out. rewrite list_lookup_total_insert_eq by lia. done. }
    destruct (returned r0) as [e|] eqn:Hr0.
    + apply wp_raise. rewrite app_nil_r. split.
      * simpl. by apply worker_thumbnail_event.
      * intros inp out' options' [Hin|[Hin|Hin]]; try discriminate Hin.
        -- injection Hin as <- <- <-. split; [done|]. left. by rewrite Hout.
        -- by apply worker_not_entry in Hin.
      * intros args exitCode err [Hin|Hin]; [discriminate Hin|].
        exists e. split; [|done]. symmetry. by apply (Hexec args).
      * done.
    + eapply wp_conseq.
      { apply IH. rewrite length_insert. lia. }
      intros r evs [Hev Hentry Hex Houts]. split.
      * simpl. rewrite forallb_app, Hev. by rewrite worker_thumbnail_event.
      * intros inp out' options' [Hin|[Hin|Hin]]; try discriminate Hin.
        -- injection Hin as <- <- <-. split; [done|]. left. by rewrite Hout.
        -- apply in_app_or in Hin as [Hin|Hin].
           ++ by apply worker_not_entry in Hin.
           ++ apply Hentry in Hin as [-> Hin]. split; [done|].
              right. right. apply in_or_app. by right.
      * intros args exitCode err [Hin|[Hin|Hin]]; try discriminate Hin.
        apply in_app_or in Hin as [Hin|Hin]; [|by apply Hex in Hin].
        exfalso. specialize (Hexec args exitCode (Some err) (or_intror Hin)).
        unfold exec_outcome in Hexec.
        destruct ((exitCode =? 5) && _); discriminate Hexec.
      * intros outs' ->. destruct (Houts outs' eq_refl) as (ps & Hfill & Hall).
        exists (p :: ps). split; [apply filled_cons; [lia | done]|].
        constructor.
        -- right. left. by rewrite Hout.
        -- eapply Forall2_impl; [exact Hall|]. intros inp q Hq.
           right. right. apply in_or_app. by right.
Qed.

Lemma log_thumbnailRoute_event l :
  forallb is_log l = true -> forallb thumbnailRoute_event l = true.
Proof. apply forallb_weaken. by intros []. Qed.

Lemma thumbnail_thumbnailRoute_event l :
  forallb thumbnail_event l = true -> forallb thumbnailRoute_event l = true.
Proof.
  apply forallb_weaken. intros ev Hev. unfold thumbnailRoute_event. by rewrite Hev.
Qed.

Lemma generateThumnailRoute_spec E f h :
  wp (generateThumnailRoute E f) h (thumbnailRoute_post E f).
Proof.
  unfold generateThumnailRoute.
  destruct (Validate f) as [e|].
  { apply wp_raise. split; try done. }
  apply wp_bind. handler_step.
  { split; [by apply log_thumbnailRoute_event | | | done].
    - intros inp out options Hin. in_absurd Hin.
    - intros args exitCode err Hin. in_absurd Hin. }
  apply wp_bind. eapply wp_conseq.
  { apply thumbnailLoop_spec. rewrite length_replicate. lia. }
  fold (pkg_native_format E).
  intros [outs|e] evs0 [Hev Hentry Hexec Houts]; cbn beta iota.
  - destruct (Houts outs eq_refl) as (ps & Hfill%filled_all & Hall). subst ps.
    assert (Hnone : forall args exitCode err,
               ~ In (EvExec args exitCode (Some err)) evs0).
    { intros args exitCode err Hin. by destruct (Hexec _ _ _ Hin) as (? & _ & ?). }
    assert (Hroute : forall res,
               forallb thumbnailRoute_event
                 (evs ++ evs0 ++ [EvAddOutputPaths outs res]) = true).
    { intros res. rewrite !forallb_app, (log_thumbnailRoute_event _ Hlog),
        (thumbnail_thumbnailRoute_event _ Hev). reflexivity. }
    assert (Hentry' : forall res inp out options,
               In (EvCreatePNG inp out options)
                  (evs ++ evs0 ++ [EvAddOutputPaths outs res]) ->
               options = thumbnailOptions f (pkg_native_format E) /\
               In (EvGeneratePath ".png" out)
                  (evs ++ evs0 ++ [EvAddOutputPaths outs res])).
    { intros res inp out options Hin. in_split Hin; try in_absurd Hin.
      apply Hentry in Hin as [-> Hin]. split; [done|].
      apply in_or_app. right. apply in_or_app. by left. }
    assert (Hexec' : forall res args exitCode err,
               ~ In (EvExec args exitCode (Some err))
                    (evs ++ evs0 ++ [EvAddOutputPaths outs res])).
    { intros res args exitCode err Hin. in_split Hin; try in_absurd Hin.
      by apply Hnone in Hin. }
    wp_steps.
    + split; [apply Hroute | apply Hentry' | | intros Hr; discriminate Hr].
      intros args exitCode err Hin. by apply Hexec' in Hin.
    + split; [apply Hroute | apply Hentry' | | intros _].
      * intros args exitCode err Hin. by apply Hexec' in Hin.
      * exists outs. split.
        -- unfold adds_once. apply ends_with_app.
           { eapply forallb_weaken; [|exact Hlog]. by intros []. }
           apply ends_with_app; [|apply ends_with_one].
           eapply forallb_weaken; [|exact Hev]. by intros [].
        -- eapply Forall2_impl; [exact Hall|].
           intros inp p Hp. apply in_or_app. right. apply in_or_app. by left.
  - split.
    + rewrite forallb_app, (log_thumbnailRoute_event _ Hlog),
        (thumbnail_thumbnailRoute_event _ Hev). reflexivity.
    + intros inp out options Hin. in_split Hin; try in_absurd Hin.
      apply Hentry in Hin as [-> Hin]. split; [done|].
      apply in_or_app. by right.
    + intros args exitCode err Hin. in_split Hin; try in_absurd Hin.
      apply Hexec in Hin as (e' & He' & [= ->]). by exists e'.
    + intros Hr. discriminate Hr.
Qed.

(** The command line of [createPNG] carries the port, the verbosity flag and
    the two paths, and nothing taken from [options]. *)
Lemma createPNG_command_line E inputPath outputPath options h :
  wp (createPNG E inputPath outputPath options) h (fun _ evs =>
    forall bin args res,
      In (EvCommandContext bin args res) evs ->
      exists port,
        args = port_args port ++ ["--output"; outputPath; inputPath] \/
        args = port_args port ++ ["-vvv"; "--output"; outputPath; inputPath]).
Proof.
  createPNG_leaves.
  all: intros bin args res Hin; simpl in Hin.
  all: destruct_or?; try discriminate Hin; try contradiction.
  all: injection Hin as <- <- <-.
  all: eexists.
  all: match goal with |- context [if ?b then _ else _] => destruct b end.
  all: (left; reflexivity) || (right; reflexivity).
Qed.

(** * The claims *)

(** C1.  A request to [convertRoute] that sets two or more of
    [nativePdfA1aFormat], [nativePdfFormat] and [pdfFormat] is rejected
    before anything is converted, merged or reformatted: the handler returns
    an error and the only events are log lines.  When the form data
    validated, that error is a 400 client error naming a pair that is set
    together. *)
Theorem convertRoute_rejects_conflicting_formats E f st :
  (2 <= formats_set f)%nat ->
  exists err evs,
    run (convertRoute E f) st = (Some err, evs) /\
    (forall ev, In ev evs -> is_conversion ev = false) /\
    (Validate f = None ->
     names_pair f err /\
     exists msg, client_error (Some err) = Some (StatusBadRequest, msg)).
Proof.
  intros Htwo.
  destruct (run (convertRoute E f) st) as [res evs] eqn:Hrun.
  eapply wp_run in Hrun as (r & -> & HQ).
  2:{ unfold convertRoute.
      instantiate (1 := fun r evs =>
        forallb is_log evs = true /\
        exists e, r = Err e /\
          (Validate f = None ->
           conflict (nativePdfA1aFormat f) (nativePdfFormat f) (pdfFormat f) = Some e)).
      destruct (Validate f) as [e|].
      { apply wp_raise. split; [reflexivity|]. exists (Errorf "validate form data" e).
        split; [reflexivity | discriminate]. }
      apply wp_bind.
      eapply wp_conseq; [apply check_formats_spec|].
      intros r evs1 [Hlog Hc]. simpl. unfold formats_set in Htwo.
      destruct (conflict _ _ _) as [e|] eqn:Hconf.
      - subst r. eauto.
      - exfalso. destruct Hc as (_ & [Ha|[Hn Hp]] & [Hn'|Hp']);
          repeat match goal with H : _ = false |- _ => rewrite H in Htwo end;
          simpl in Htwo;
          repeat match goal with H : context [if ?b then _ else _] |- _ => destruct b end;
          simpl in Htwo; lia. }
  destruct HQ as (Hlog & e & -> & Hconf). exists e, evs. simpl.
  split; [reflexivity|]. split.
  - intros ev Hin. rewrite forallb_forall in Hlog. apply Hlog in Hin.
    by destruct ev.
  - intros HV. specialize (Hconf HV). unfold conflict in Hconf. split.
    + destruct (nativePdfA1aFormat f) eqn:Ha,
               (nonempty (nativePdfFormat f)) eqn:Hn,
               (nonempty (pdfFormat f)) eqn:Hp; simpl in Hconf; simplify_eq;
        try apply nonempty_true in Hn; try apply nonempty_true in Hp;
        by constructor.
    + repeat match goal with H : context [if ?b then _ else _] |- _ => destruct b end;
        simplify_eq; by eexists.
Qed.

Lemma convertRoute_rejects_conflicting_formats_witness :
  exists err evs,
    run (convertRoute (scripted quiet) conflicting_form) initial = (Some err, evs) /\
    (forall ev, In ev evs -> is_conversion ev = false) /\
    names_pair conflicting_form err /\
    exists msg, client_error (Some err) = Some (StatusBadRequest, msg).
Proof.
  destruct (convertRoute_rejects_conflicting_formats (scripted quiet) conflicting_form
              initial ltac:(vm_compute; lia)) as (err & evs & Hrun & Hquiet & Hpair).
  exists err, evs. split; [exact Hrun|]. split; [exact Hquiet|]. exact (Hpair eq_refl).
Defined.

(** C2.  With a restart threshold above zero, [createPNG] reads the port of
    the shared listener only after [lock()] has returned [nil]: every read
    of that port in the events of the call is preceded by a successful lock
    of the same call and yields the port as it is at that moment, the
    [--port] argument of every command line is a port read that way, and a
    failed lock is followed by no port read and no command. *)
Theorem createPNG_reads_port_after_lock E inputPath outputPath options st res evs :
  0 < libreOfficeRestartThreshold E ->
  run (createPNG E inputPath outputPath options) st = (res, evs) ->
  port_after_lock E (trace st) evs.
Proof.
  intros Hthr Hrun.
  eapply wp_run in Hrun as (r & _ & HQ); [|apply createPNG_port_after_lock; lia].
  exact HQ.
Qed.

Lemma createPNG_reads_port_after_lock_witness :
  exists res evs,
    run (createPNG (scripted quiet) "a.docx" "/tmp/0.png" page_one) initial = (res, evs) /\
    port_after_lock (scripted quiet) (trace initial) evs.
Proof.
  eexists _, _. split; [reflexivity|].
  apply (createPNG_reads_port_after_lock (scripted quiet) "a.docx" "/tmp/0.png" page_one
           initial None).
  - reflexivity.
  - vm_compute. reflexivity.
Defined.

(** C3.  In [convertRoute], a failed call to [unoAPI.PDF] is the last event
    of the request: before it there are only log lines, path generations
    and conversions that succeeded, so it is the first failure; nothing is
    merged, reformatted or added to the response; and the handler returns
    that error, wrapped by ["convert to PDF"] and, for malformed page
    ranges, by a client error.  This holds for any number of documents. *)
Theorem convertRoute_fails_fast E f st res evs inp out opts e :
  run (convertRoute E f) st = (res, evs) ->
  In (EvPDF inp out opts (Some e)) evs ->
  ends_with conv_stage evs (EvPDF inp out opts (Some e)) /\
  (forall ev, In ev evs ->
     is_Merge ev = false /\ is_Convert ev = false /\ is_AddOutputPaths ev = false) /\
  (res = Some (Errorf "convert to PDF" e) \/
   exists s, res = Some (WrapError (Errorf "convert to PDF" e) s)).
Proof.
  intros Hrun Hin.
  eapply wp_run in Hrun as (r & -> & HQ); [|apply convertRoute_first_failure].
  destruct (HQ _ _ _ _ Hin) as [Hends ->]. split; [exact Hends|]. split.
  - destruct Hends as (pre & -> & Hpre). intros ev Hev.
    apply in_app_or in Hev as [Hev|[<-|[]]]; [|done].
    rewrite forallb_forall in Hpre. apply Hpre in Hev.
    destruct ev; try discriminate Hev; done.
  - unfold convertToPDF_failure. destruct (errors_Is _ _); eauto.
Qed.

Lemma convertRoute_fails_fast_witness :
  exists res evs opts,
    run (convertRoute (scripted second_fails) three_documents) initial = (res, evs) /\
    ends_with conv_stage evs
      (EvPDF "b.docx" "/tmp/1.pdf" opts (Some (errors_New "exit status 81"))) /\
    (forall ev, In ev evs ->
       is_Merge ev = false /\ is_Convert ev = false /\ is_AddOutputPaths ev = false) /\
    (res = Some (Errorf "convert to PDF" (errors_New "exit status 81")) \/
     exists s, res = Some (WrapError (Errorf "convert to PDF"
                                        (errors_New "exit status 81")) s)).
Proof.
  eexists _, _, _. split; [reflexivity|].
  apply (convertRoute_fails_fast (scripted second_fails) three_documents initial).
  - vm_compute. reflexivity.
  - vm_compute. tauto.
Defined.



(** C5, as the code has it.  [createPNG] returns [nil] exactly when
    [cmd.Exec] returned a [nil] error, whatever the exit code; for every
    non-nil error of [cmd.Exec] it returns a non-nil error.  The exit code is
    read only after a non-nil error, to choose between
    [ErrMalformedPageRanges] and the wrapped error. *)
Theorem createPNG_succeeds_iff_runner_nil E inputPath outputPath options st res evs
    args exitCode err :
  run (createPNG E inputPath outputPath options) st = (res, evs) ->
  In (EvExec args exitCode err) evs ->
  (res = None <-> err = None) /\
  res = exec_outcome options exitCode err.
Proof.
  intros Hrun Hin.
  eapply wp_run in Hrun as (r & -> & HQ); [|apply createPNG_exec_outcome].
  rewrite (HQ _ _ _ Hin). split; [|reflexivity].
  unfold exec_outcome. destruct err as [e|]; [|done].
  destruct (_ && _); split; discriminate.
Qed.

Lemma createPNG_succeeds_iff_runner_nil_witness :
  exists res evs,
    run (createPNG (scripted exit_three_no_error) "a.docx" "/tmp/0.png" page_one) initial
      = (res, evs) /\
    (res = None <-> @None error = None) /\
    res = exec_outcome page_one 3 None.
Proof.
  eexists _, _. split; [reflexivity|].
  eapply (createPNG_succeeds_iff_runner_nil (scripted exit_three_no_error)
            "a.docx" "/tmp/0.png" page_one initial).
  - vm_compute. reflexivity.
  - vm_compute. tauto.
Defined.

(** With exit code 0 and a runner error [createPNG] returns an error; with
    exit code 3 and no runner error it returns [nil]. *)
Lemma exit_code_does_not_decide :
  (exists res evs args err,
      run (createPNG (scripted exit_zero_with_error) "a.docx" "/tmp/0.png" page_one)
        initial = (res, evs) /\
      In (EvExec args 0 err) evs /\ res <> None) /\
  (exists res evs args err,
      run (createPNG (scripted exit_three_no_error) "a.docx" "/tmp/0.png" page_one)
        initial = (res, evs) /\
      In (EvExec args 3 err) evs /\ res = None) /\
  ~ exit_code_decides.
Proof.
  assert (H0 : exists res evs args err,
      run (createPNG (scripted exit_zero_with_error) "a.docx" "/tmp/0.png" page_one)
        initial = (res, evs) /\
      In (EvExec args 0 err) evs /\ res <> None).
  { eexists _, _, _, _. split; [vm_compute; reflexivity|]. split.
    - simpl. do 6 right. left. reflexivity.
    - discriminate. }
  split; [exact H0|]. split.
  - eexists _, _, _, _. split; [vm_compute; reflexivity|]. split.
    + simpl. do 6 right. left. reflexivity.
    + reflexivity.
  - intros Hclaim. destruct H0 as (res & evs & args & err & Hrun & Hin & Hres).
    destruct (Hclaim _ _ _ _ _ _ _ _ _ _ Hrun Hin) as [Hzero _]. auto.
Qed.

(** C6.  In [convertRoute], a failed call to [engine.Convert] happens only
    with [pdfFormat] set and for that format, and it ends the request.  If
    the error is [gotenberg.ErrPDFFormatNotAvailable] the handler returns a
    400 client error whose message quotes [pdfFormat]; any other error comes
    back wrapped by ["convert PDF"], with no client-facing description. *)
Theorem convertRoute_reformat_errors E f st res evs format inp out e :
  run (convertRoute E f) st = (res, evs) ->
  In (EvConvert format inp out (Some e)) evs ->
  format = pdfFormat f /\ pdfFormat f <> "" /\
  ends_with succeeded evs (EvConvert format inp out (Some e)) /\
  (errors_Is e gotenberg_ErrPDFFormatNotAvailable = true ->
     res = Some (WrapError (Errorf "convert PDF" e)
                   (NewSentinelHTTPError StatusBadRequest (format_message (pdfFormat f)))) /\
     client_error res = Some (StatusBadRequest, format_message (pdfFormat f)) /\
     exists before after,
       format_message (pdfFormat f) = before +:+ pdfFormat f +:+ after) /\
  (errors_Is e gotenberg_ErrPDFFormatNotAvailable = false ->
     res = Some (Errorf "convert PDF" e) /\ client_error res = None).
Proof.
  intros Hrun Hin.
  eapply wp_run in Hrun as (r & -> & HQ); [|apply convertRoute_reformat_failure].
  destruct (HQ _ _ _ _ Hin) as (-> & Hn & Hends & ->).
  split; [reflexivity|]. split; [by apply nonempty_true|]. split; [exact Hends|].
  unfold convert_failure. split; intros ->.
  - split; [reflexivity|]. split; [reflexivity|].
    eexists _, _. reflexivity.
  - split; reflexivity.
Qed.

Lemma convertRoute_reformat_errors_witness :
  exists res evs,
    run (convertRoute (scripted format_unavailable) two_to_reformat) initial = (res, evs) /\
    client_error res = Some (StatusBadRequest, format_message "PDF/A-2b").
Proof.
  eexists _, _. split; [reflexivity|].
  eapply (convertRoute_reformat_errors (scripted format_unavailable) two_to_reformat
            initial _ _ "PDF/A-2b" "/tmp/1.pdf" "/tmp/3.pdf"
            (Errorf "pdftk" gotenberg_ErrPDFFormatNotAvailable)).
  - vm_compute. reflexivity.
  - vm_compute. tauto.
  - reflexivity.
Defined.

(** C7.  For a request with exactly one input document, whatever the merge
    flag, [convertRoute] never calls [engine.Merge]; and when the handler
    returns [nil] it has made exactly one call to [AddOutputPaths], with
    exactly one path. *)
Theorem convertRoute_single_document E f st res evs :
  length (inputPaths f) = 1%nat ->
  run (convertRoute E f) st = (res, evs) ->
  (forall ev, In ev evs -> is_Merge ev = false) /\
  (res = None -> exists p, adds_once evs [p]).
Proof.
  intros Hone Hrun.
  eapply wp_run in Hrun as (r & -> & HQ); [|by apply convertRoute_single].
  exact HQ.
Qed.

Lemma convertRoute_single_document_witness :
  exists res evs,
    run (convertRoute (scripted quiet) one_to_merge) initial = (res, evs) /\
    res = None /\
    (forall ev, In ev evs -> is_Merge ev = false) /\
    exists p, adds_once evs [p].
Proof.
  eexists _, _. split; [reflexivity|]. split; [reflexivity|].
  destruct (convertRoute_single_document (scripted quiet) one_to_merge initial None _
              eq_refl ltac:(vm_compute; reflexivity)) as [H1 H2].
  split; [exact H1 | exact (H2 eq_refl)].
Defined.

(** C8.  For a request with [merge=false] on which [convertRoute] returns
    [nil], with or without [pdfFormat], the handler has made exactly one
    call to [AddOutputPaths]; its paths are as many as the input documents,
    and the i-th path was produced from the i-th input. *)
Theorem convertRoute_unmerged_outputs E f st evs :
  merge f = false ->
  run (convertRoute E f) st = (None, evs) ->
  exists outs,
    adds_once evs outs /\
    length outs = length (inputPaths f) /\
    Forall2 (produced f evs) (inputPaths f) outs.
Proof.
  intros Hmerge Hrun.
  eapply wp_run in Hrun as (r & Hr & HQ); [|by apply convertRoute_unmerged].
  destruct (HQ (eq_sym Hr)) as (outs & Hadd & Hall).
  exists outs. split; [exact Hadd|]. split; [|exact Hall].
  symmetry. by eapply Forall2_length.
Qed.

Lemma convertRoute_unmerged_outputs_witness :
  exists evs outs,
    run (convertRoute (scripted quiet) two_to_reformat) initial = (None, evs) /\
    adds_once evs outs /\
    length outs = 2%nat /\
    Forall2 (produced two_to_reformat evs) ["a.docx"; "b.docx"] outs.
Proof.
  destruct (convertRoute_unmerged_outputs (scripted quiet) two_to_reformat initial _
              eq_refl ltac:(vm_compute; reflexivity)) as (outs & H1 & H2 & H3).
  eexists _, outs. split; [vm_compute; reflexivity|]. auto.
Defined.

(** C9.  The handler builds the page selection ["1"] for every document
    (line 364: "this gets the first page from a document for thumbnails"),
    but the command that [createPNG] runs does not carry it.  For a request
    with two documents: both calls of [createPNG] receive [PageRanges = "1"],
    and both commands are run with the fixed flags, the port and the two
    paths only.  The command run for a document is the same as the one run
    with no page selection at all. *)
Theorem generateThumnailRoute_page_selection_not_passed :
  run (generateThumnailRoute (scripted quiet) landscape_pages) initial =
  (None,
   [EvGeneratePath ".png" "/tmp/0.png";
    EvCreatePNG "a.docx" "/tmp/0.png"
      {| Landscape := true; PageRanges := "1"; PDFformat := "" |};
    EvLock None; EvSharedPort 2003; EvDebugCheck false;
    EvCommandContext "/usr/bin/unoconv"
      ["--no-launch"; "--format"; "png"; "--port"; "2003";
       "--output"; "/tmp/0.png"; "a.docx"] None;
    EvLog DebugLevel "print to PNG with: {Landscape:true PageRanges:1 PDFformat:}" None;
    EvExec ["--no-launch"; "--format"; "png"; "--port"; "2003";
            "--output"; "/tmp/0.png"; "a.docx"] 0 None;
    EvGoUnlock;
    EvGeneratePath ".png" "/tmp/1.png";
    EvCreatePNG "b.docx" "/tmp/1.png"
      {| Landscape := true; PageRanges := "1"; PDFformat := "" |};
    EvLock None; EvSharedPort 2004; EvDebugCheck false;
    EvCommandContext "/usr/bin/unoconv"
      ["--no-launch"; "--format"; "png"; "--port"; "2004";
       "--output"; "/tmp/1.png"; "b.docx"] None;
    EvLog DebugLevel "print to PNG with: {Landscape:true PageRanges:1 PDFformat:}" None;
    EvExec ["--no-launch"; "--format"; "png"; "--port"; "2004";
            "--output"; "/tmp/1.png"; "b.docx"] 0 None;
    EvGoUnlock;
    EvAddOutputPaths ["/tmp/0.png"; "/tmp/1.png"] None]) /\
  List.filter is_Exec
    (snd (run (createPNG (scripted quiet) "a.docx" "/tmp/0.png" page_one) initial)) =
  List.filter is_Exec
    (snd (run (createPNG (scripted quiet) "a.docx" "/tmp/0.png" no_page_ranges) initial)).
Proof. split; vm_compute; reflexivity. Qed.

(** C10.  With an empty page selection, an error of the command runner with
    exit code 5 comes back as the wrapped error ["unoconv PNG: ..."], not as
    [ErrMalformedPageRanges]; and whenever [createPNG] returns
    [ErrMalformedPageRanges] the page selection is not empty (and the runner
    returned an error with exit code 5). *)
Theorem createPNG_malformed_needs_page_ranges E inputPath outputPath options st res evs :
  run (createPNG E inputPath outputPath options) st = (res, evs) ->
  (PageRanges options = "" ->
   forall args err, In (EvExec args 5 (Some err)) evs ->
     res = Some (Errorf "unoconv PNG" err) /\ res <> Some ErrMalformedPageRanges) /\
  (res = Some ErrMalformedPageRanges ->
   PageRanges options <> "" /\ exists args err, In (EvExec args 5 (Some err)) evs).
Proof.
  intros Hrun. split.
  - intros Hempty args err Hin.
    eapply wp_run in Hrun as (r & -> & HQ); [|apply createPNG_exec_outcome].
    rewrite (HQ _ _ _ Hin). unfold exec_outcome. rewrite Hempty. simpl.
    split; [reflexivity | discriminate].
  - intros Hres.
    eapply wp_run in Hrun as (r & -> & HQ); [|apply createPNG_malformed_only].
    destruct (HQ Hres) as [Hn Hex]. split; [by apply nonempty_true | exact Hex].
Qed.

Lemma createPNG_malformed_needs_page_ranges_witness :
  exists res evs,
    run (createPNG (scripted exit_five) "a.docx" "/tmp/0.png" no_page_ranges) initial
      = (res, evs) /\
    res = Some (Errorf "unoconv PNG" (errors_New "exit status 5")) /\
    res <> Some ErrMalformedPageRanges.
Proof.
  eexists _, _. split; [reflexivity|].
  destruct (createPNG_malformed_needs_page_ranges (scripted exit_five)
              "a.docx" "/tmp/0.png" no_page_ranges initial
              (Some (Errorf "unoconv PNG" (errors_New "exit status 5"))) _
              ltac:(vm_compute; reflexivity)) as [H1 _].
  eapply (H1 eq_refl).
  simpl. do 6 right. left. reflexivity.
Defined.

(** * Further properties *)

(** From a property of every execution to a property of [run]. *)
Lemma run_wp {A} (m : M A) st (P : option error -> Trace -> Prop) :
  wp m (trace st) (fun r evs => P (returned r) evs) ->
  forall res evs, run m st = (res, evs) -> P res evs.
Proof.
  intros Hwp res evs Hrun.
  destruct (wp_run _ _ _ _ _ Hwp Hrun) as (r & -> & HQ). exact HQ.
Qed.

Ltac by_wp :=
  lazymatch goal with
  | |- forall res evs, run ?m ?st = (res, evs) -> @?P res evs =>
      apply (run_wp m st P)
  end.

Ltac in_cases H :=
  simpl in H; destruct_or?; try discriminate H; try contradiction.

(** ** [createPNG] *)

(** X1.  With the restart threshold at zero [createPNG] works on a listener
    of its own and never touches the long-running one.  If that listener
    does not start, the call returns the wrapped error at once.  Once it
    has started it is stopped exactly once, on every path, after the
    command has run or failed; an error of [stop] is logged and does not
    change the result. *)
Theorem createPNG_private_listener_stopped E inputPath outputPath options st res evs :
  libreOfficeRestartThreshold E = 0 ->
  run (createPNG E inputPath outputPath options) st = (res, evs) ->
  forallb (fun ev => negb (shared_listener_event ev)) evs = true /\
  (forall e, In (EvListenerStart (Some e)) evs ->
     res = Some (Errorf "start LibreOffice listener" e) /\
     evs = [EvCreatePNG inputPath outputPath options; EvListenerStart (Some e)]) /\
  (In (EvListenerStart None) evs ->
     occurrences is_ListenerStop evs = 1%nat /\
     forallb is_log (following is_ListenerStop evs) = true /\
     (forall args exitCode, In (EvExec args exitCode None) evs -> res = None)) /\
  (forall e, In (EvListenerStop (Some e)) evs ->
     In (EvLog ErrorLevel "stop LibreOffice listener" (Some e)) evs).
Proof.
  intros Hthr. revert res evs. by_wp.
  createPNG_leaves; try contradiction.
  all: (split; [reflexivity|split; [|split]]);
    [ intros e' Hin; in_cases Hin; simplify_eq; split; reflexivity
    | intros Hin;
      first [ by in_cases Hin
            | split; [reflexivity|split; [reflexivity|]];
              intros args' exitCode' Hex; in_cases Hex; simplify_eq; reflexivity ]
    | intros e' Hin; in_cases Hin; simplify_eq; simpl; tauto ].
Qed.

Lemma createPNG_private_listener_stopped_witness :
  exists res evs,
    run (createPNG (scripted private_listener) "a.docx" "/tmp/0.png" page_one) initial
      = (res, evs) /\
    forallb (fun ev => negb (shared_listener_event ev)) evs = true /\
    (forall e, In (EvListenerStart (Some e)) evs ->
       res = Some (Errorf "start LibreOffice listener" e) /\
       evs = [EvCreatePNG "a.docx" "/tmp/0.png" page_one; EvListenerStart (Some e)]) /\
    (In (EvListenerStart None) evs ->
       occurrences is_ListenerStop evs = 1%nat /\
       forallb is_log (following is_ListenerStop evs) = true /\
       (forall args exitCode, In (EvExec args exitCode None) evs -> res = None)) /\
    (forall e, In (EvListenerStop (Some e)) evs ->
       In (EvLog ErrorLevel "stop LibreOffice listener" (Some e)) evs).
Proof.
  eexists _, _. split; [vm_compute; reflexivity|].
  eapply (createPNG_private_listener_stopped (scripted private_listener)
           "a.docx" "/tmp/0.png" page_one initial); vm_compute; reflexivity.
Defined.

(** X2.  With a restart threshold other than zero [createPNG] works on the
    long-running listener and never starts or stops one of its own.  If
    [lock] fails the call returns the wrapped error at once and releases
    nothing.  Once the lock is held, the goroutine that unlocks is started
    exactly once, as the last thing the call does, on every path. *)
Theorem createPNG_shared_listener_unlocked E inputPath outputPath options st res evs :
  libreOfficeRestartThreshold E <> 0 ->
  run (createPNG E inputPath outputPath options) st = (res, evs) ->
  forallb (fun ev => negb (private_listener_event ev)) evs = true /\
  (forall e, In (EvLock (Some e)) evs ->
     res = Some (Errorf "lock long-running LibreOffice listener" e) /\
     evs = [EvCreatePNG inputPath outputPath options; EvLock (Some e)]) /\
  (In (EvLock None) evs ->
     ends_with (fun ev => negb (is_GoUnlock ev)) evs EvGoUnlock).
Proof.
  intros Hthr. revert res evs. by_wp.
  createPNG_leaves; try contradiction.
  all: (split; [reflexivity|split]);
    [ intros e' Hin; in_cases Hin; simplify_eq; split; reflexivity
    | intros Hin; first [ by in_cases Hin | ends_with_solve ] ].
Qed.

Lemma createPNG_shared_listener_unlocked_witness :
  exists res evs,
    run (createPNG (scripted exit_zero_with_error) "a.docx" "/tmp/0.png" page_one) initial
      = (res, evs) /\
    forallb (fun ev => negb (private_listener_event ev)) evs = true /\
    (forall e, In (EvLock (Some e)) evs ->
       res = Some (Errorf "lock long-running LibreOffice listener" e) /\
       evs = [EvCreatePNG "a.docx" "/tmp/0.png" page_one; EvLock (Some e)]) /\
    (In (EvLock None) evs ->
       ends_with (fun ev => negb (is_GoUnlock ev)) evs EvGoUnlock).
Proof.
  eexists _, _. split; [vm_compute; reflexivity|].
  eapply (createPNG_shared_listener_unlocked (scripted exit_zero_with_error)
           "a.docx" "/tmp/0.png" page_one initial);
    [vm_compute; discriminate | vm_compute; reflexivity].
Defined.

(** X3.  The command [createPNG] creates is [mod.unoconvBinPath] with the
    fixed PNG flags, the port it read from its listener, [-vvv] exactly when
    the logger's debug check answered, then [--output], the output path and
    the input path.  Nothing of [options] is on the command line. *)
Theorem createPNG_command_arguments E inputPath outputPath options st res evs :
  run (createPNG E inputPath outputPath options) st = (res, evs) ->
  forall bin args r,
    In (EvCommandContext bin args r) evs ->
    bin = unoconvBinPath E /\
    exists port verbose,
      args = command_line port verbose inputPath outputPath /\
      In (EvDebugCheck verbose) evs /\
      if decide (libreOfficeRestartThreshold E = 0)
      then In (EvListenerPort port) evs
      else In (EvSharedPort port) evs.
Proof.
  revert res evs. by_wp.
  createPNG_leaves.
  all: intros bin args r Hin; in_cases Hin.
  all: injection Hin as <- <- <-; split; [reflexivity|].
  all: match goal with
       | |- context [EvDebugCheck ?b] =>
           match goal with
           | |- context [pretty ?p] => exists p, b; destruct b
           end
       end.
  all: (split; [reflexivity | simpl; tauto]).
Qed.

Lemma createPNG_command_arguments_witness :
  exists res evs,
    run (createPNG (scripted private_listener) "a.docx" "/tmp/0.png" page_one) initial
      = (res, evs) /\
    In (EvCommandContext "/usr/bin/unoconv"
          (command_line 3000 true "a.docx" "/tmp/0.png") None) evs /\
    exists port verbose,
      command_line 3000 true "a.docx" "/tmp/0.png" =
      command_line port verbose "a.docx" "/tmp/0.png" /\
      In (EvDebugCheck verbose) evs /\ In (EvListenerPort port) evs.
Proof.
  eexists _, _. split; [vm_compute; reflexivity|].
  assert (Hin : In (EvCommandContext "/usr/bin/unoconv"
                      (command_line 3000 true "a.docx" "/tmp/0.png") None)
                  (snd (run (createPNG (scripted private_listener) "a.docx"
                                "/tmp/0.png" page_one) initial)))
    by (vm_compute; tauto).
  split; [vm_compute; tauto|].
  exact (proj2 (createPNG_command_arguments (scripted private_listener)
                  "a.docx" "/tmp/0.png" page_one initial _ _ eq_refl _ _ _ Hin)).
Defined.

(** X4.  [createPNG] runs the command at most once, with the arguments of a
    command that [gotenberg.CommandContext] created without error.  When
    the command cannot be created the call returns the wrapped error and
    runs nothing. *)
Theorem createPNG_runs_command_once E inputPath outputPath options st res evs :
  run (createPNG E inputPath outputPath options) st = (res, evs) ->
  (occurrences is_Exec evs <= 1)%nat /\
  (forall args exitCode err,
     In (EvExec args exitCode err) evs ->
     In (EvCommandContext (unoconvBinPath E) args None) evs) /\
  (forall bin args e,
     In (EvCommandContext bin args (Some e)) evs ->
     res = Some (Errorf "create unoconv command" e) /\
     occurrences is_Exec evs = 0%nat).
Proof.
  revert res evs. by_wp.
  createPNG_leaves.
  all: (split; [cbv [occurrences List.filter is_Exec length]; lia|split]);
    [ intros args' exitCode' err' Hin; in_cases Hin;
      injection Hin as <- <- <-; simpl; tauto
    | intros bin args' e' Hin; in_cases Hin; simplify_eq; split; reflexivity ].
Qed.

Lemma createPNG_runs_command_once_witness :
  exists res evs,
    run (createPNG (scripted quiet) "a.docx" "/tmp/0.png" page_one) initial = (res, evs) /\
    (occurrences is_Exec evs <= 1)%nat /\
    (forall args exitCode err,
       In (EvExec args exitCode err) evs ->
       In (EvCommandContext "/usr/bin/unoconv" args None) evs) /\
    (forall bin args e,
       In (EvCommandContext bin args (Some e)) evs ->
       res = Some (Errorf "create unoconv command" e) /\
       occurrences is_Exec evs = 0%nat).
Proof.
  eexists _, _. split; [vm_compute; reflexivity|].
  eapply (createPNG_runs_command_once (scripted quiet)
           "a.docx" "/tmp/0.png" page_one initial).
  vm_compute. reflexivity.
Defined.

Lemma errors_Is_refl e : errors_Is e e = true.
Proof. destruct e; simpl; by rewrite decide_True. Qed.

Lemma errors_Is_Errorf prefix e target :
  errors_Is e target = true -> errors_Is (Errorf prefix e) target = true.
Proof. intros H. simpl. by destruct (decide _). Qed.

(** X5.  An error returned by [createPNG] is either
    [ErrMalformedPageRanges] or wraps, with [%w], the error of the call that
    failed (start, lock, command creation or execution): [errors.Is] on the
    result finds that error. *)
Theorem createPNG_error_wraps_cause E inputPath outputPath options st res evs r :
  run (createPNG E inputPath outputPath options) st = (res, evs) ->
  res = Some r ->
  r = ErrMalformedPageRanges \/
  exists e ev, In ev evs /\ failed_with e ev /\ errors_Is r e = true.
Proof.
  intros Hrun. revert r. revert res evs Hrun. by_wp.
  createPNG_leaves.
  all: intros r' Hr; try discriminate Hr; injection Hr as <-.
  all: first [ left; reflexivity | right ].
  all: match goal with
       | |- context [EvListenerStart (Some ?e)] => exists e, (EvListenerStart (Some e))
       | |- context [EvLock (Some ?e)] => exists e, (EvLock (Some e))
       | |- context [EvCommandContext ?b ?a (Some ?e)] =>
           exists e, (EvCommandContext b a (Some e))
       | |- context [EvExec ?a ?c (Some ?e)] => exists e, (EvExec a c (Some e))
       end.
  all: (split; [simpl; tauto | split; [reflexivity|]]).
  all: apply errors_Is_Errorf, errors_Is_refl.
Qed.

Lemma createPNG_error_wraps_cause_witness :
  exists res evs r,
    run (createPNG (scripted lock_refused) "a.docx" "/tmp/0.png" page_one) initial
      = (res, evs) /\
    res = Some r /\
    (r = ErrMalformedPageRanges \/
     exists e ev, In ev evs /\ failed_with e ev /\ errors_Is r e = true).
Proof.
  eexists _, _, _. split; [vm_compute; reflexivity|]. split; [reflexivity|].
  eapply (createPNG_error_wraps_cause (scripted lock_refused)
            "a.docx" "/tmp/0.png" page_one initial);
    [vm_compute; reflexivity | reflexivity].
Defined.

(** ** The instance counter *)

Lemma wrap64_small z : int_range z -> wrap64 z = z.
Proof.
  unfold int_range, wrap64. intros Hz.
  rewrite Z.mod_small by lia. lia.
Qed.

Lemma wrap64_up_down z : int_range z -> wrap64 (wrap64 (z + 1) + -1) = z.
Proof.
  unfold int_range. intros Hz.
  destruct (decide (z = 2 ^ 63 - 1)) as [->|Hne]; [reflexivity|].
  rewrite (wrap64_small (z + 1)) by (unfold int_range; lia).
  replace (z + 1 + -1) with z by lia.
  apply wrap64_small. unfold int_range. lia.
Qed.

Section Counter.
Context {A B : Type}.

Lemma keeps_count_ret (a : A) : keeps_count (ret a).
Proof. by intros st _. Qed.

Lemma keeps_count_raise e : keeps_count (raise (A := A) e).
Proof. by intros st _. Qed.

Lemma keeps_count_call (ask : Trace -> A) ev : keeps_count (call ask ev).
Proof. by intros st _. Qed.

Lemma keeps_count_bind (m : M A) (k : A -> M B) :
  keeps_count m -> (forall a, keeps_count (k a)) -> keeps_count (bind m k).
Proof.
  intros Hm Hk st Hst. specialize (Hm st Hst). unfold bind.
  destruct (m st) as [[a|e] st1]; simpl in *; [|exact Hm].
  rewrite <- Hm. apply Hk. by rewrite Hm.
Qed.

(** As [keeps_count_bind], knowing something of the value [m] yields. *)
Lemma keeps_count_bind_value (R : A -> Prop) (m : M A) (k : A -> M B) :
  keeps_count m ->
  (forall st a st', m st = (Ok a, st') -> R a) ->
  (forall a, R a -> keeps_count (k a)) ->
  keeps_count (bind m k).
Proof.
  intros Hm HR Hk st Hst. specialize (Hm st Hst). specialize (HR st).
  unfold bind. destruct (m st) as [[a|e] st1]; simpl in *; [|exact Hm].
  rewrite <- Hm. apply Hk; [by eapply HR | by rewrite Hm].
Qed.

Lemma keeps_count_invoke (callee : M A) :
  keeps_count callee -> keeps_count (invoke callee).
Proof.
  intros Hm st Hst. specialize (Hm st Hst). unfold invoke.
  by destruct (callee st).
Qed.

Lemma keeps_count_with_defer (deferred : M unit) (body : M A) :
  keeps_count body -> keeps_count deferred -> keeps_count (with_defer deferred body).
Proof.
  intros Hb Hd st Hst. specialize (Hb st Hst). unfold with_defer.
  destruct (body st) as [r st1]; simpl in *.
  rewrite <- Hb. apply Hd. by rewrite Hb.
Qed.

(** Lines 268-276: the counter goes up before [cmd.Exec] and down after. *)
Lemma keeps_count_around (ask : Trace -> A) ev (k : A -> M B) :
  (forall a, keeps_count (k a)) ->
  keeps_count (count 1;; a <- call ask ev;; count (-1);; k a).
Proof.
  intros Hk st Hst. unfold bind, count, call. simpl.
  set (a := ask (trace st)).
  set (st1 := bump (-1) (emit (ev a) (bump 1 st))).
  assert (Hback : activeInstancesCount st1 = activeInstancesCount st).
  { subst st1. simpl. by apply wrap64_up_down. }
  rewrite <- Hback. apply Hk. by rewrite Hback.
Qed.
End Counter.

Lemma keeps_count_record ev : keeps_count (record ev).
Proof. by intros st _. Qed.

Lemma keeps_count_log lvl msg err : keeps_count (log lvl msg err).
Proof. by intros st _. Qed.

Ltac keeps_count_step :=
  lazymatch goal with
  | |- keeps_count (count 1;; _) => apply keeps_count_around; intros ?
  | |- keeps_count (bind _ _) => apply keeps_count_bind; [|intros ?]
  | |- keeps_count (ret _) => apply keeps_count_ret
  | |- keeps_count (raise _) => apply keeps_count_raise
  | |- keeps_count (call _ _) => apply keeps_count_call
  | |- keeps_count (GeneratePath _ _) => apply keeps_count_call
  | |- keeps_count (AddOutputPaths _ _) => apply keeps_count_call
  | |- keeps_count (record _) => apply keeps_count_record
  | |- keeps_count (log _ _ _) => apply keeps_count_log
  | |- keeps_count (invoke _) => apply keeps_count_invoke
  | |- keeps_count (when ?b _) => destruct b; simpl
  | |- keeps_count (match ?x with _ => _ end) => destruct x
  end.

Lemma createPNG_acquire_keeps_count E args : keeps_count (createPNG_acquire E args).
Proof. unfold createPNG_acquire. repeat keeps_count_step. Qed.

Lemma createPNG_deferred_keeps_count E args st acquired st' :
  createPNG_acquire E args st = (Ok acquired, st') -> keeps_count (snd acquired).
Proof.
  unfold createPNG_acquire, bind, call, raise, ret.
  repeat (case_match; simpl); intros [= <- _]; simpl; repeat keeps_count_step.
  intros st0 _. simpl. by case_match.
Qed.

Lemma createPNG_run_keeps_count E args inputPath outputPath options :
  keeps_count (createPNG_run E args inputPath outputPath options).
Proof. unfold createPNG_run. repeat keeps_count_step. Qed.

Lemma createPNG_keeps E inputPath outputPath options :
  keeps_count (createPNG E inputPath outputPath options).
Proof.
  unfold createPNG. apply keeps_count_bind; [apply keeps_count_record|intros _].
  eapply keeps_count_bind_value.
  - apply createPNG_acquire_keeps_count.
  - intros st acquired st'. apply createPNG_deferred_keeps_count.
  - intros acquired Hdeferred. apply keeps_count_with_defer; [|exact Hdeferred].
    apply createPNG_run_keeps_count.
Qed.

(** X6.  [createPNG] gives the instance counter back as it found it, on
    every path (the listener does not start, the lock is refused, the
    command cannot be created, the command fails, the command succeeds), for
    every initial value of a 64-bit [int]. *)
Theorem createPNG_restores_counter E inputPath outputPath options st :
  int_range (activeInstancesCount st) ->
  activeInstancesCount (snd (createPNG E inputPath outputPath options st)) =
  activeInstancesCount st.
Proof. apply createPNG_keeps. Qed.

(** ** The runs of [convertRoute] *)

Lemma convertLoop_rounds_spec E f nativePDFformat rest :
  forall i outs h,
    (i + length rest <= length outs)%nat ->
    wp (convertRoute_convertLoop E f nativePDFformat i rest outs) h
       (convertLoop_rounds f nativePDFformat rest i outs).
Proof.
  induction rest as [|inputPath rest IH]; intros i outs h Hlen; simpl in *.
  - apply wp_ret. exists []. split; [done|]. split; [done|]. split; [done|].
    apply filled_nil.
  - wp_steps.
    + exists [{| step_in := inputPath; step_out := a; step_res := Some e |}].
      rewrite list_lookup_total_insert_eq by lia. split; [done|].
      exists [], inputPath, a, e. repeat split; try done.
      simpl. apply prefix_cons, prefix_nil.
    + eapply wp_conseq.
      { apply IH. rewrite length_insert. lia. }
      rewrite list_lookup_total_insert_eq by lia.
      intros [outs'|err] evs (steps & -> & Hpost).
      * destruct Hpost as (Hok & Hin & Hfill).
        exists ({| step_in := inputPath; step_out := a; step_res := None |} :: steps).
        split; [done|]. split; [by simpl|]. split; [by simpl; rewrite Hin|].
        simpl. apply filled_cons; [lia|done].
      * destruct Hpost as (before & inp & out & e & -> & Hok & Hpre & ->).
        exists ({| step_in := inputPath; step_out := a; step_res := None |}
                  :: before ++ [{| step_in := inp; step_out := out; step_res := Some e |}]).
        split; [done|].
        exists ({| step_in := inputPath; step_out := a; step_res := None |} :: before),
          inp, out, e.
        repeat split; try done. simpl. by apply prefix_cons.
Qed.

Lemma createPNG_restores_counter_witness :
  activeInstancesCount
    (snd (createPNG (scripted quiet) "a.docx" "/tmp/0.png" page_one counter_at_max)) =
  2 ^ 63 - 1.
Proof.
  eapply (createPNG_restores_counter (scripted quiet) "a.docx" "/tmp/0.png" page_one
           counter_at_max).
  vm_compute. split; [discriminate | reflexivity].
Defined.

Lemma reformatLoop_rounds_spec E PDFformat rest :
  forall i outs h,
    (i + length rest <= length outs)%nat ->
    wp (convertRoute_reformatLoop E PDFformat i rest outs) h
       (reformatLoop_rounds PDFformat rest i outs).
Proof.
  induction rest as [|outputPath rest IH]; intros i outs h Hlen; simpl in *.
  - apply wp_ret. exists []. split; [done|]. split; [done|]. split; [done|].
    apply filled_nil.
  - wp_steps.
    + exists [{| step_in := outputPath; step_out := a; step_res := Some e |}].
      rewrite list_lookup_total_insert_eq by lia. split; [done|].
      exists [], outputPath, a, e. split; [done|]. split; [done|]. split; [|done].
      simpl. apply prefix_cons, prefix_nil.
    + eapply wp_conseq.
      { apply IH. rewrite length_insert. lia. }
      rewrite list_lookup_total_insert_eq by lia.
      intros [outs'|err] evs (steps & -> & Hpost).
      * destruct Hpost as (Hok & Hin & Hfill).
        exists ({| step_in := outputPath; step_out := a; step_res := None |} :: steps).
        split; [done|]. split; [by simpl|]. split; [by simpl; rewrite Hin|].
        simpl. apply filled_cons; [lia|done].
      * destruct Hpost as (before & inp & out & e & -> & Hok & Hpre & ->).
        exists ({| step_in := outputPath; step_out := a; step_res := None |}
                  :: before ++ [{| step_in := inp; step_out := out; step_res := Some e |}]).
        split; [done|].
        exists ({| step_in := outputPath; step_out := a; step_res := None |} :: before),
          inp, out, e.
        split; [done|]. split; [done|]. split; [|done]. simpl. by apply prefix_cons.
Qed.

Lemma check_formats_warning a n p h :
  wp (check_formats a n p) h (fun r evs =>
    evs = warning a /\
    match conflict a n p with
    | Some e => r = Err e
    | None => r = Ok (if a then FormatPDFA1a else n)
    end).
Proof.
  unfold check_formats, conflict, warning.
  destruct a, (nonempty n), (nonempty p); simpl; wp_steps; try discriminate.
  all: by split.
Qed.

Lemma wrapped_returned prefix (err : option error) :
  returned (A := unit)
    match err with
    | Some e => Err (Errorf prefix e)
    | None => Ok tt
    end = wrapped prefix err.
Proof. by destruct err. Qed.

(** Every run of [convertRoute] is one of [convertRoute_runs]. *)
Lemma convertRoute_runs_spec E f h :
  wp (convertRoute E f) h (fun r evs => convertRoute_runs f (returned r) evs).
Proof.
  unfold convertRoute.
  destruct (Validate f) as [e|] eqn:HV.
  { apply wp_raise. by constructor. }
  apply wp_bind. eapply wp_conseq; [apply check_formats_warning|].
  intros r evs0 [-> Hc]. destruct (conflict _ _ _) as [e|] eqn:Hconf; subst r.
  { by constructor. }
  cbn beta iota. fold (native_format f).
  eapply wp_conseq.
  2:{ intros r evs Hconv. apply runs_conversion; [done|done|exact Hconv]. }
  apply wp_bind. eapply wp_conseq.
  { apply convertLoop_rounds_spec. rewrite length_replicate. lia. }
  intros [outs|err] evs1 (steps & -> & Hpost); cbn beta iota.
  2:{ destruct Hpost as (before & inp & out & e & -> & Hok & Hpre & ->).
      by constructor. }
  destruct Hpost as (Hok & Hin & Hfill%filled_all). subst outs.
  assert (Hlen : length (map step_out steps) = length (inputPaths f)).
  { by rewrite <- Hin, !length_map. }
  rewrite Hlen.
  destruct ((1 <? length (inputPaths f))%nat && merge f) eqn:Hmerge.
  - apply andb_true_iff in Hmerge as [Hn%Nat.ltb_lt Hm].
    unfold convertRoute_merge. wp_steps.
    + eapply (conversion_merge_fails f steps); done.
    + eapply (conversion_merged f steps); try done. by apply merged_reformat_fails.
    + eapply (conversion_merged f steps); try done.
      by apply (merged_reformatted f a a1 (Some e)).
    + eapply (conversion_merged f steps); try done.
      by apply (merged_reformatted f a a1 None).
    + eapply (conversion_merged f steps); try done.
      by apply (merged_added f a (Some e)).
    + eapply (conversion_merged f steps); try done.
      by apply (merged_added f a None).
  - unfold convertRoute_each.
    destruct (nonempty (pdfFormat f)) eqn:Hfmt.
    + apply wp_bind. eapply wp_conseq.
      { apply reformatLoop_rounds_spec. rewrite length_replicate. lia. }
      intros [outs|err] evs2 (rounds & -> & Hpost); cbn beta iota.
      * destruct Hpost as (Hok2 & Hin2 & Hfill%filled_all). subst outs.
        wp_steps.
        -- eapply (conversion_unmerged f steps); try done.
           by apply (unmerged_reformatted f _ rounds (Some e)).
        -- eapply (conversion_unmerged f steps); try done.
           by apply (unmerged_reformatted f _ rounds None).
      * destruct Hpost as (before & inp & out & e & -> & Hok2 & Hpre & ->).
        eapply (conversion_unmerged f steps); try done.
        by apply unmerged_reformat_fails.
    + wp_steps.
      * eapply (conversion_unmerged f steps); try done.
        by apply (unmerged_added f _ (Some e)).
      * eapply (conversion_unmerged f steps); try done.
        by apply (unmerged_added f _ None).
Qed.

Lemma convertRoute_run_cases E f st res evs :
  run (convertRoute E f) st = (res, evs) -> convertRoute_runs f res evs.
Proof. revert res evs. by_wp. apply convertRoute_runs_spec. Qed.

(** *** Events of the loops *)

Lemma In_conv_events options steps ev :
  In ev (conv_events options steps) <->
  exists s, In s steps /\
    (ev = EvGeneratePath ".pdf" (step_out s) \/
     ev = EvPDF (step_in s) (step_out s) options (step_res s)).
Proof.
  unfold conv_events. rewrite in_flat_map. split.
  - intros (s & Hs & [<- | [<- | []]]); eauto.
  - intros (s & Hs & [-> | ->]); exists s; simpl; auto.
Qed.

Lemma In_reformat_events PDFformat steps ev :
  In ev (reformat_events PDFformat steps) <->
  exists s, In s steps /\
    (ev = EvGeneratePath ".pdf" (step_out s) \/
     ev = EvConvert PDFformat (step_in s) (step_out s) (step_res s)).
Proof.
  unfold reformat_events. rewrite in_flat_map. split.
  - intros (s & Hs & [<- | [<- | []]]); eauto.
  - intros (s & Hs & [-> | ->]); exists s; simpl; auto.
Qed.

Lemma In_warning a ev :
  In ev (warning a) -> a = true /\ ev = EvLog WarnLevel deprecation_warning None.
Proof. destruct a; simpl; [|tauto]. intros [<- | []]. done. Qed.

Lemma conv_events_app options s1 s2 :
  conv_events options (s1 ++ s2) = conv_events options s1 ++ conv_events options s2.
Proof. apply flat_map_app. Qed.

Lemma reformat_events_app PDFformat s1 s2 :
  reformat_events PDFformat (s1 ++ s2) =
  reformat_events PDFformat s1 ++ reformat_events PDFformat s2.
Proof. apply flat_map_app. Qed.

Lemma pdf_inputs_app l1 l2 : pdf_inputs (l1 ++ l2) = pdf_inputs l1 ++ pdf_inputs l2.
Proof. apply flat_map_app. Qed.

Lemma pdf_inputs_conv_events options steps :
  pdf_inputs (conv_events options steps) = map step_in steps.
Proof. induction steps as [|s steps IH]; simpl; [done|]. by rewrite <- IH. Qed.

Lemma pdf_inputs_reformat_events PDFformat steps :
  pdf_inputs (reformat_events PDFformat steps) = [].
Proof. induction steps as [|s steps IH]; simpl; done. Qed.

Lemma pdf_inputs_warning a : pdf_inputs (warning a) = [].
Proof. by destruct a. Qed.

Lemma pdf_inputs_merged_tail f merged res tail :
  merged_tail f merged res tail -> pdf_inputs tail = [].
Proof. by destruct 1. Qed.

Lemma pdf_inputs_unmerged_tail f outs res tail :
  unmerged_tail f outs res tail -> pdf_inputs tail = [].
Proof.
  destruct 1; simpl; try done.
  - apply pdf_inputs_reformat_events.
  - by rewrite pdf_inputs_app, pdf_inputs_reformat_events.
Qed.

Lemma last_two {X} (l : list X) a b : last (l ++ [a; b]) = Some b.
Proof.
  replace (l ++ [a; b]) with ((l ++ [a]) ++ [b]) by (by rewrite <- app_assoc).
  apply last_snoc.
Qed.

(** Past the conversion loop every input has been converted. *)
Lemma conversion_pdf_inputs f res evs :
  conversion f res evs ->
  pdf_inputs evs `prefix_of` inputPaths f /\
  ((exists inp out opts e, last evs = Some (EvPDF inp out opts (Some e))) \/
   pdf_inputs evs = inputPaths f).
Proof.
  destruct 1 as [before inp out e Hok Hpre|steps merged e Hok Hin Hn Hm
                |steps merged res tail Hok Hin Hn Hm Htail
                |steps res tail Hok Hin Hnm Htail].
  - rewrite pdf_inputs_conv_events, map_app. simpl. split; [done|]. left.
    rewrite conv_events_app. simpl. rewrite last_two. eauto 6.
  - rewrite pdf_inputs_app, pdf_inputs_conv_events, Hin. simpl.
    rewrite app_nil_r. split; [done|by right].
  - rewrite !pdf_inputs_app, pdf_inputs_conv_events, Hin. simpl.
    rewrite (pdf_inputs_merged_tail _ _ _ _ Htail), app_nil_r. split; [done|by right].
  - rewrite !pdf_inputs_app, pdf_inputs_conv_events, Hin.
    rewrite (pdf_inputs_unmerged_tail _ _ _ _ Htail), app_nil_r. split; [done|by right].
Qed.

Lemma In_pdf_inputs inp out opts r l : In (EvPDF inp out opts r) l -> In inp (pdf_inputs l).
Proof.
  intros Hin. unfold pdf_inputs. apply in_flat_map.
  exists (EvPDF inp out opts r). simpl. auto.
Qed.

Lemma not_In_pdf l inp out opts r : pdf_inputs l = [] -> ~ In (EvPDF inp out opts r) l.
Proof. intros Hl Hin%In_pdf_inputs. rewrite Hl in Hin. destruct Hin. Qed.

Lemma merged_tail_no_pdf f merged res tail :
  merged_tail f merged res tail -> pdf_inputs tail = [].
Proof. apply pdf_inputs_merged_tail. Qed.

(** The events of a conversion: the rounds of the loop, then events that are
    not conversions. *)
Lemma conversion_split f res evs :
  conversion f res evs ->
  exists steps tail,
    evs = conv_events (convertOptions f (native_format f)) steps ++ tail /\
    map step_in steps `prefix_of` inputPaths f /\
    pdf_inputs tail = [] /\
    ((tail = [] /\ res <> None /\ forallb step_ok steps = false) \/
     (map step_in steps = inputPaths f /\ forallb step_ok steps = true)).
Proof.
  destruct 1 as [before inp out e Hok Hpre|steps merged e Hok Hin Hn Hm
                |steps merged res tail Hok Hin Hn Hm Htail
                |steps res tail Hok Hin Hnm Htail].
  - eexists _, []. rewrite app_nil_r. split; [reflexivity|].
    rewrite map_app. simpl. split; [done|]. split; [done|]. left.
    split; [done|]. split; [done|].
    rewrite forallb_app. simpl. by rewrite andb_false_r.
  - eexists steps, _. split; [reflexivity|]. rewrite Hin.
    split; [done|]. split; [done|]. by right.
  - eexists steps, _. split; [reflexivity|]. rewrite Hin.
    split; [done|]. split; [|by right].
    simpl. by eapply pdf_inputs_merged_tail.
  - eexists steps, _. split; [reflexivity|]. rewrite Hin.
    split; [done|]. split; [|by right].
    by eapply pdf_inputs_unmerged_tail.
Qed.

(** X7.  [convertRoute] converts the documents in the order of the request,
    each at most once: the inputs given to [unoAPI.PDF], in call order, are
    a prefix of [inputPaths].  They are all of [inputPaths] when the handler
    returns [nil], and whenever anything is merged, reformatted or added to
    the response. *)
Theorem convertRoute_converts_in_order E f st res evs :
  run (convertRoute E f) st = (res, evs) ->
  pdf_inputs evs `prefix_of` inputPaths f /\
  (res = None -> pdf_inputs evs = inputPaths f) /\
  (forall ev, In ev evs ->
     is_Merge ev || is_Convert ev || is_AddOutputPaths ev = true ->
     pdf_inputs evs = inputPaths f).
Proof.
  intros Hruns%convertRoute_run_cases.
  destruct Hruns as [e HV|e HV Hconf|res evs HV Hconf Hconv].
  - split; [apply prefix_nil|]. split; [done|]. intros ev [].
  - rewrite pdf_inputs_warning. split; [apply prefix_nil|]. split; [done|].
    intros ev [_ ->]%In_warning. done.
  - rewrite pdf_inputs_app, pdf_inputs_warning. simpl.
    apply conversion_split in Hconv
      as (steps & tail & -> & Hpre & Htail & [(-> & Hres & Hbad)|[Hall Hok]]).
    + rewrite app_nil_r, pdf_inputs_conv_events. split; [done|]. split; [done|].
      intros ev Hin Hev. exfalso.
      apply in_app_or in Hin as [[_ ->]%In_warning|Hin]; [done|].
      apply In_conv_events in Hin as (s & _ & [-> | ->]); done.
    + rewrite pdf_inputs_app, pdf_inputs_conv_events, Htail, app_nil_r, Hall.
      done.
Qed.

Lemma convertRoute_converts_in_order_witness :
  exists res evs,
    run (convertRoute (scripted second_fails) three_documents) initial = (res, evs) /\
    pdf_inputs evs = ["a.docx"; "b.docx"] /\
    pdf_inputs evs `prefix_of` inputPaths three_documents /\
    (res = None -> pdf_inputs evs = inputPaths three_documents) /\
    (forall ev, In ev evs ->
       is_Merge ev || is_Convert ev || is_AddOutputPaths ev = true ->
       pdf_inputs evs = inputPaths three_documents).
Proof.
  eexists _, _. split; [vm_compute; reflexivity|]. split; [vm_compute; reflexivity|].
  eapply (convertRoute_converts_in_order (scripted second_fails) three_documents initial).
  vm_compute. reflexivity.
Defined.

(** Membership in the events of a run, piece by piece. *)
Ltac in_events H :=
  repeat match type of H with
         | In _ (_ ++ _) => apply in_app_or in H as [H|H]
         | In _ (conv_events _ _) =>
             let s := fresh "s" in
             let Hs := fresh "Hs" in
             apply In_conv_events in H as (s & Hs & [H | H])
         | In _ (reformat_events _ _) =>
             let s := fresh "s" in
             let Hs := fresh "Hs" in
             apply In_reformat_events in H as (s & Hs & [H | H])
         | In _ (warning _) =>
             let Ha := fresh "Ha" in apply In_warning in H as [Ha H]
         | In _ (_ :: _) => destruct H as [H|H]
         | In _ [] => destruct H
         end.

Ltac runs_cases H :=
  let Hconv := fresh "Hconv" in
  let Htail := fresh "Htail" in
  destruct H as [e0 HV|e0 HV Hconf|res0 evs0 HV Hconf Hconv];
  [ | | destruct Hconv as [before0 inp0 out0 e0 Hok Hpre|steps m0 e0 Hok Hin Hn Hm
                          |steps m0 res0 tail Hok Hin Hn Hm Htail
                          |steps res0 tail Hok Hin Hnm Htail];
        [ | | destruct Htail as [r0 Hfmt|out0 e0 Hfmt|out0 r0 Hfmt]
            | destruct Htail as [r0 Hfmt|before0 inp0 out0 e0 Hfmt Hok2 Hpre2
                                |rounds r0 Hfmt Hok2 Hin2] ] ].

Lemma In_prefix {X} (x : X) l1 l2 : l1 `prefix_of` l2 -> In x l1 -> In x l2.
Proof. intros [k ->] Hin. apply in_or_app. by left. Qed.

Lemma follows_here a b l : follows a b (a :: b :: l).
Proof. by exists [], l. Qed.

Lemma follows_cons a b x l : follows a b l -> follows a b (x :: l).
Proof. intros (pre & post & ->). by exists (x :: pre), post. Qed.

Lemma follows_app_r a b l1 l2 : follows a b l2 -> follows a b (l1 ++ l2).
Proof. intros (pre & post & ->). exists (l1 ++ pre), post. by rewrite app_assoc. Qed.

Lemma follows_app_l a b l1 l2 : follows a b l1 -> follows a b (l1 ++ l2).
Proof.
  intros (pre & post & ->). exists pre, (post ++ l2). by rewrite <- app_assoc.
Qed.

Lemma conv_events_around options steps s :
  In s steps ->
  follows (EvGeneratePath ".pdf" (step_out s))
    (EvPDF (step_in s) (step_out s) options (step_res s))
    (conv_events options steps).
Proof.
  intros (s1 & s2 & ->)%in_split. rewrite conv_events_app.
  apply follows_app_r. simpl. apply follows_here.
Qed.

(** X8.  Every call to [unoAPI.PDF] made by [convertRoute] converts one of
    the request's documents with the request's [landscape] and
    [nativePageRanges] and with the native format [PDF/A-1a] when the
    deprecated flag is set, [nativePdfFormat] otherwise; and it writes to
    the path generated with [.pdf] immediately before the call. *)
Theorem convertRoute_conversion_calls E f st res evs inp out opts r :
  run (convertRoute E f) st = (res, evs) ->
  In (EvPDF inp out opts r) evs ->
  opts = {| Landscape := landscape f;
            PageRanges := nativePageRanges f;
            PDFformat := if nativePdfA1aFormat f then FormatPDFA1a
                         else nativePdfFormat f |} /\
  In inp (inputPaths f) /\
  follows (EvGeneratePath ".pdf" out) (EvPDF inp out opts r) evs.
Proof.
  intros Hruns%convertRoute_run_cases Hev.
  destruct Hruns as [e HV|e HV Hconf|res evs HV Hconf Hconv].
  - destruct Hev.
  - by apply In_warning in Hev as [_ Hev].
  - apply conversion_split in Hconv as (steps & tail & -> & Hpre & Htail & _).
    in_events Hev; try discriminate Hev.
    + injection Hev as -> -> -> ->. split; [reflexivity|]. split.
      * eapply In_prefix; [exact Hpre|]. by apply in_map.
      * apply follows_app_r, follows_app_l. by apply conv_events_around.
    + by apply not_In_pdf in Hev.
Qed.

Lemma convertRoute_conversion_calls_witness :
  exists res evs opts,
    run (convertRoute (scripted quiet) landscape_pages) initial = (res, evs) /\
    opts = {| Landscape := true; PageRanges := "2-3"; PDFformat := "" |} /\
    In "b.docx" (inputPaths landscape_pages) /\
    follows (EvGeneratePath ".pdf" "/tmp/1.pdf")
      (EvPDF "b.docx" "/tmp/1.pdf" opts None) evs.
Proof.
  eexists _, _, _. split; [vm_compute; reflexivity|].
  eapply (convertRoute_conversion_calls (scripted quiet) landscape_pages initial);
    [vm_compute; reflexivity | vm_compute; tauto].
Defined.

Lemma conflict_None_iff f :
  conflict (nativePdfA1aFormat f) (nativePdfFormat f) (pdfFormat f) = None <->
  (formats_set f <= 1)%nat.
Proof.
  unfold conflict, formats_set.
  destruct (nativePdfA1aFormat f), (nonempty (nativePdfFormat f)),
    (nonempty (pdfFormat f)); simpl; split; intros H; try done; lia.
Qed.

Lemma head_prefix {X} (l1 l2 : list X) :
  l1 `prefix_of` l2 -> l1 <> [] -> head l1 = head l2.
Proof. intros [k ->] Hne. by destruct l1. Qed.

Lemma conversion_no_log f res evs ev :
  conversion f res evs -> In ev evs -> is_log ev = false.
Proof.
  intros Hconv Hin.
  destruct Hconv as [before inp out e Hok Hpre|steps merged e Hok Hin' Hn Hm
                    |steps merged res tail Hok Hin' Hn Hm Htail
                    |steps res tail Hok Hin' Hnm Htail];
    try destruct Htail; in_events Hin; by subst.
Qed.

(** X9.  A validated request that sets at most one of the three format
    options is not rejected: the first document of the request is the first
    one given to [unoAPI.PDF].  The deprecation warning is logged exactly
    when [nativePdfA1aFormat] is set. *)
Theorem convertRoute_accepts_one_format E f st res evs :
  Validate f = None ->
  (formats_set f <= 1)%nat ->
  run (convertRoute E f) st = (res, evs) ->
  head (pdf_inputs evs) = head (inputPaths f) /\
  (nativePdfA1aFormat f = true <-> In (EvLog WarnLevel deprecation_warning None) evs).
Proof.
  intros HV Hone%conflict_None_iff Hruns%convertRoute_run_cases.
  destruct Hruns as [e HV'|e HV' Hconf|res evs HV' Hconf Hconv]; [congruence..|].
  split.
  - rewrite pdf_inputs_app, pdf_inputs_warning. simpl.
    apply conversion_split in Hconv
      as (steps & tail & -> & Hpre & Htail & [(-> & Hres & Hbad)|[Hall Hok]]).
    + rewrite app_nil_r, pdf_inputs_conv_events. apply head_prefix; [done|].
      intros Hnil. apply map_eq_nil in Hnil. by subst steps.
    + by rewrite pdf_inputs_app, pdf_inputs_conv_events, Htail, app_nil_r, Hall.
  - split.
    + intros ->. simpl. by left.
    + intros [[Ha _]%In_warning|Hin]%in_app_or; [done|].
      by eapply conversion_no_log in Hin.
Qed.

Lemma convertRoute_accepts_one_format_witness :
  exists res evs,
    run (convertRoute (scripted quiet) one_native_format) initial = (res, evs) /\
    head (pdf_inputs evs) = Some "a.docx" /\
    In (EvLog WarnLevel deprecation_warning None) evs.
Proof.
  eexists _, _. split; [reflexivity|].
  destruct (convertRoute_accepts_one_format (scripted quiet) one_native_format initial
              None _ eq_refl ltac:(vm_compute; lia) ltac:(vm_compute; reflexivity))
    as [H1 H2].
  split; [exact H1 | by apply H2].
Defined.

(** *** Success and failure *)

Lemma succeeded_conv_events options steps :
  forallb succeeded (conv_events options steps) = forallb step_ok steps.
Proof.
  induction steps as [|[inp out [e|]] steps IH]; simpl; [done|done|].
  by rewrite IH.
Qed.

Lemma succeeded_reformat_events PDFformat steps :
  forallb succeeded (reformat_events PDFformat steps) = forallb step_ok steps.
Proof.
  induction steps as [|[inp out [e|]] steps IH]; simpl; [done|done|].
  by rewrite IH.
Qed.

Lemma succeeded_warning a : forallb succeeded (warning a) = true.
Proof. by destruct a. Qed.

Lemma step_ok_snoc_failed before inp out e :
  forallb step_ok
    (before ++ [{| step_in := inp; step_out := out; step_res := Some e |}]) = false.
Proof. rewrite forallb_app. simpl. apply andb_false_r. Qed.

(** X10.  [convertRoute] returns [nil] exactly when the form validated, at
    most one format option is set, and every call it made (conversion,
    merge, reformat, adding the output paths) returned no error. *)
Theorem convertRoute_nil_iff E f st res evs :
  run (convertRoute E f) st = (res, evs) ->
  res = None <->
  Validate f = None /\ (formats_set f <= 1)%nat /\ forallb succeeded evs = true.
Proof.
  intros Hruns%convertRoute_run_cases. rewrite <- conflict_None_iff.
  runs_cases Hruns.
  all: rewrite ?forallb_app, ?succeeded_warning, ?succeeded_conv_events,
         ?succeeded_reformat_events, ?step_ok_snoc_failed, ?Hok, ?Hok2;
       cbn [andb forallb succeeded wrapped].
  all: try (split; [discriminate | intros (? & ? & ?); congruence]).
  all: destruct r0 as [e|]; cbn [andb forallb succeeded wrapped];
       (split; [try discriminate; done | intros (? & ? & ?); congruence]).
Qed.

Lemma convertRoute_nil_iff_witness :
  exists res evs,
    run (convertRoute (scripted quiet) two_to_reformat) initial = (res, evs) /\
    (res = None <->
     Validate two_to_reformat = None /\ (formats_set two_to_reformat <= 1)%nat /\
     forallb succeeded evs = true).
Proof.
  eexists _, _. split; [vm_compute; reflexivity|].
  eapply (convertRoute_nil_iff (scripted quiet) two_to_reformat initial).
  vm_compute. reflexivity.
Defined.

(** *** Merge *)

Lemma pdf_outputs_app l1 l2 : pdf_outputs (l1 ++ l2) = pdf_outputs l1 ++ pdf_outputs l2.
Proof. apply flat_map_app. Qed.

Lemma pdf_outputs_conv_events options steps :
  forallb step_ok steps = true ->
  pdf_outputs (conv_events options steps) = map step_out steps.
Proof.
  induction steps as [|[inp out [e|]] steps IH]; simpl; [done|done|].
  intros Hok. by rewrite IH.
Qed.

Lemma pdf_outputs_warning a : pdf_outputs (warning a) = [].
Proof. by destruct a. Qed.

Lemma pdf_outputs_reformat_events PDFformat steps :
  pdf_outputs (reformat_events PDFformat steps) = [].
Proof. induction steps as [|s steps IH]; simpl; done. Qed.

Lemma occurrences_app P l1 l2 :
  occurrences P (l1 ++ l2) = (occurrences P l1 + occurrences P l2)%nat.
Proof. unfold occurrences. by rewrite List.filter_app, length_app. Qed.

Lemma occurrences_none P l :
  (forall ev, In ev l -> P ev = false) -> occurrences P l = 0%nat.
Proof.
  intros Hl. unfold occurrences. induction l as [|ev l IH]; simpl; [done|].
  rewrite (Hl ev) by (by left). apply IH. intros ev' Hin. apply Hl. by right.
Qed.

Lemma occurrences_conv_events P options steps :
  (forall ext p, P (EvGeneratePath ext p) = false) ->
  (forall inp out opts r, P (EvPDF inp out opts r) = false) ->
  occurrences P (conv_events options steps) = 0%nat.
Proof.
  intros Hg Hp. apply occurrences_none. intros ev Hin.
  in_events Hin; by subst.
Qed.

Lemma occurrences_warning P a :
  (forall lvl msg err, P (EvLog lvl msg err) = false) ->
  occurrences P (warning a) = 0%nat.
Proof. intros Hl. destruct a; [|done]. unfold occurrences. simpl. by rewrite Hl. Qed.

(** The converted files, in the order of the inputs. *)
Lemma converted_in_order options steps evs :
  forallb step_ok steps = true ->
  (forall ev, In ev (conv_events options steps) -> In ev evs) ->
  Forall2 (fun inp p => In (EvPDF inp p options None) evs)
    (map step_in steps) (map step_out steps).
Proof.
  induction steps as [|[inp out [e|]] steps IH]; simpl; intros Hok Hsub;
    [constructor|done|].
  constructor.
  - apply Hsub. right. by left.
  - apply IH; [done|]. intros ev Hin. apply Hsub. right. by right.
Qed.

(** X11.  [engine.Merge] is called only when [merge] is set and the request
    has more than one document, and only once.  Its inputs are the files
    produced by the conversions, all of them, in the order of the request's
    documents.  When it fails the handler returns that error wrapped by
    ["merge PDFs"] and calls nothing else. *)
Theorem convertRoute_merge_call E f st res evs ins merged r :
  run (convertRoute E f) st = (res, evs) ->
  In (EvMerge ins merged r) evs ->
  merge f = true /\ (1 < length (inputPaths f))%nat /\
  occurrences is_Merge evs = 1%nat /\
  ins = pdf_outputs evs /\
  Forall2 (fun inp p => In (EvPDF inp p (convertOptions f (native_format f)) None) evs)
    (inputPaths f) ins /\
  (forall e, r = Some e ->
     res = Some (Errorf "merge PDFs" e) /\ last evs = Some (EvMerge ins merged r)).
Proof.
  intros Hruns%convertRoute_run_cases Hev.
  runs_cases Hruns; in_events Hev; try discriminate Hev; subst.
  all: injection Hev as <- <- <-.
  all: (split; [done|split; [done|]]).
  all: rewrite !occurrences_app, !pdf_outputs_app, pdf_outputs_warning,
         (pdf_outputs_conv_events _ _ Hok), occurrences_warning,
         occurrences_conv_events by done.
  all: (split; [reflexivity|]).
  all: (split; [simpl; by rewrite app_nil_r|]).
  all: (split;
        [ rewrite <- Hin; apply converted_in_order; [done|];
          intros ev Hev; apply in_or_app; right; apply in_or_app; by left
        | intros e' He'; try discriminate He' ]).
  injection He' as <-. split; [reflexivity|].
  rewrite app_assoc. apply last_two.
Qed.

Lemma convertRoute_merge_call_witness :
  exists res evs ins merged e,
    run (convertRoute (scripted merge_refused) three_documents) initial = (res, evs) /\
    In (EvMerge ins merged (Some e)) evs /\
    merge three_documents = true /\ (1 < length (inputPaths three_documents))%nat /\
    occurrences is_Merge evs = 1%nat /\
    ins = pdf_outputs evs /\
    Forall2 (fun inp p =>
               In (EvPDF inp p (convertOptions three_documents
                                  (native_format three_documents)) None) evs)
      (inputPaths three_documents) ins /\
    (forall e', Some e = Some e' ->
       res = Some (Errorf "merge PDFs" e') /\ last evs = Some (EvMerge ins merged (Some e))).
Proof.
  exists (Some (Errorf "merge PDFs" (errors_New "pdftk: exit status 1"))).
  eexists. exists ["/tmp/0.pdf"; "/tmp/1.pdf"; "/tmp/2.pdf"], "/tmp/3.pdf".
  exists (errors_New "pdftk: exit status 1").
  split; [vm_compute; reflexivity|].
  split; [vm_compute; tauto|].
  eapply (convertRoute_merge_call (scripted merge_refused) three_documents initial);
    [vm_compute; reflexivity | vm_compute; tauto].
Defined.

Lemma forallb_In (P : Event -> bool) l :
  (forall ev, In ev l -> P ev = true) -> forallb P l = true.
Proof. intros H. by apply forallb_forall. Qed.

Lemma forallb_conv_events (P : Event -> bool) options steps :
  (forall ext p, P (EvGeneratePath ext p) = true) ->
  (forall s, In s steps -> P (EvPDF (step_in s) (step_out s) options (step_res s)) = true) ->
  forallb P (conv_events options steps) = true.
Proof.
  intros Hg Hp. apply forallb_In. intros ev Hin. in_events Hin; subst; auto.
Qed.

Lemma forallb_reformat_events (P : Event -> bool) PDFformat steps :
  (forall ext p, P (EvGeneratePath ext p) = true) ->
  (forall s, In s steps ->
     P (EvConvert PDFformat (step_in s) (step_out s) (step_res s)) = true) ->
  forallb P (reformat_events PDFformat steps) = true.
Proof.
  intros Hg Hp. apply forallb_In. intros ev Hin. in_events Hin; subst; auto.
Qed.

Lemma forallb_warning (P : Event -> bool) a :
  (forall lvl msg err, P (EvLog lvl msg err) = true) -> forallb P (warning a) = true.
Proof. intros Hl. destruct a; simpl; [by rewrite Hl|done]. Qed.

Lemma step_ok_In steps s : forallb step_ok steps = true -> In s steps -> step_res s = None.
Proof.
  intros Hok Hs. rewrite forallb_forall in Hok. apply Hok in Hs.
  unfold step_ok in Hs. by destruct (step_res s).
Qed.

(** Closing [ends_with] goals over the events of a run. *)
Ltac ends_with_run Hok Hok2 :=
  repeat first
    [ apply ends_with_one
    | apply ends_with_cons; [reflexivity|]
    | apply ends_with_app;
      [ first
          [ by apply forallb_warning
          | apply forallb_conv_events; [done|];
            let s := fresh "s" in
            let Hs := fresh "Hs" in
            intros s Hs; by rewrite (step_ok_In _ _ Hok Hs)
          | apply forallb_reformat_events; [done|];
            let s := fresh "s" in
            let Hs := fresh "Hs" in
            intros s Hs; by rewrite (step_ok_In _ _ Hok2 Hs) ]
      | ] ].

(** X12.  When [merge] is set, the request has more than one document and
    [convertRoute] returns [nil], the response holds exactly one path: the
    file written by [engine.Merge], or, when [pdfFormat] is set, the file
    written by [engine.Convert] from it. *)
Theorem convertRoute_merged_output E f st evs :
  merge f = true ->
  (1 < length (inputPaths f))%nat ->
  run (convertRoute E f) st = (None, evs) ->
  exists ins merged out,
    In (EvMerge ins merged None) evs /\
    adds_once evs [out] /\
    if nonempty (pdfFormat f)
    then In (EvConvert (pdfFormat f) merged out None) evs
    else out = merged.
Proof.
  intros Hmerge Hmany Hruns%convertRoute_run_cases.
  remember None as res eqn:Hres in Hruns.
  runs_cases Hruns; try discriminate Hres.
  - destruct r0; [discriminate Hres|].
    exists (map step_out steps), m0, m0. rewrite Hfmt. split; [|split; [|done]].
    + apply in_or_app. right. apply in_or_app. right. simpl. tauto.
    + unfold adds_once. ends_with_run Hok Hok.
  - destruct r0; [discriminate Hres|].
    exists (map step_out steps), m0, out0. rewrite Hfmt. split; [|split].
    + apply in_or_app. right. apply in_or_app. right. simpl. tauto.
    + unfold adds_once. ends_with_run Hok Hok.
    + apply in_or_app. right. apply in_or_app. right. simpl. tauto.
  - apply Nat.ltb_lt in Hmany. rewrite Hmany, Hmerge in Hnm. discriminate Hnm.
  - apply Nat.ltb_lt in Hmany. rewrite Hmany, Hmerge in Hnm. discriminate Hnm.
Qed.

Lemma convertRoute_merged_output_witness :
  exists evs,
    run (convertRoute (scripted quiet) three_documents) initial = (None, evs) /\
    exists ins merged out,
      In (EvMerge ins merged None) evs /\
      adds_once evs [out] /\
      In (EvConvert "PDF/A-2b" merged out None) evs.
Proof.
  eexists. split; [vm_compute; reflexivity|].
  eapply (convertRoute_merged_output (scripted quiet) three_documents initial);
    [reflexivity | vm_compute; lia | vm_compute; reflexivity].
Defined.

Lemma existsb_conv_events (P : Event -> bool) options steps :
  (forall ext p, P (EvGeneratePath ext p) = false) ->
  (forall inp out opts r, P (EvPDF inp out opts r) = false) ->
  existsb P (conv_events options steps) = false.
Proof.
  intros Hg Hp. induction steps as [|s steps IH]; simpl; [done|].
  by rewrite Hg, Hp, IH.
Qed.

Lemma existsb_reformat_events (P : Event -> bool) PDFformat steps :
  (forall ext p, P (EvGeneratePath ext p) = false) ->
  (forall format inp out r, P (EvConvert format inp out r) = false) ->
  existsb P (reformat_events PDFformat steps) = false.
Proof.
  intros Hg Hp. induction steps as [|s steps IH]; simpl; [done|].
  by rewrite Hg, Hp, IH.
Qed.

Lemma existsb_warning (P : Event -> bool) a :
  (forall lvl msg err, P (EvLog lvl msg err) = false) -> existsb P (warning a) = false.
Proof. intros Hl. destruct a; simpl; [by rewrite Hl|done]. Qed.

(** X13.  [ctx.AddOutputPaths] is the last call [convertRoute] makes and it
    makes it once, after every other call succeeded.  The handler returns
    [nil] when it succeeds and its error, wrapped by ["add output path"]
    after a merge and by ["add output paths"] otherwise, when it fails. *)
Theorem convertRoute_adds_last E f st res evs paths r :
  run (convertRoute E f) st = (res, evs) ->
  In (EvAddOutputPaths paths r) evs ->
  ends_with before_adding evs (EvAddOutputPaths paths r) /\
  res = wrapped (if existsb is_Merge evs then "add output path" else "add output paths") r.
Proof.
  intros Hruns%convertRoute_run_cases Hev.
  runs_cases Hruns; in_events Hev; try discriminate Hev; subst.
  all: injection Hev as <- <-.
  all: rewrite ?existsb_app, ?existsb_warning, ?existsb_conv_events,
         ?existsb_reformat_events by done.
  all: (split; [ends_with_run Hok Hok2 | reflexivity]).
Qed.

Lemma convertRoute_adds_last_witness :
  exists res evs,
    run (convertRoute (scripted add_refused) three_documents) initial = (res, evs) /\
    ends_with before_adding evs
      (EvAddOutputPaths ["/tmp/4.pdf"] (Some (errors_New "path not in working directory"))) /\
    res = Some (Errorf "add output path" (errors_New "path not in working directory")).
Proof.
  exists (Some (Errorf "add output path" (errors_New "path not in working directory"))).
  eexists. split; [vm_compute; reflexivity|].
  eapply (convertRoute_adds_last (scripted add_refused) three_documents initial);
    [vm_compute; reflexivity | vm_compute; tauto].
Defined.

(** *** Reformat *)

Lemma convert_inputs_app l1 l2 :
  convert_inputs (l1 ++ l2) = convert_inputs l1 ++ convert_inputs l2.
Proof. apply flat_map_app. Qed.

Lemma convert_inputs_conv_events options steps :
  convert_inputs (conv_events options steps) = [].
Proof. induction steps as [|s steps IH]; simpl; done. Qed.

Lemma convert_inputs_reformat_events PDFformat steps :
  convert_inputs (reformat_events PDFformat steps) = map step_in steps.
Proof. induction steps as [|s steps IH]; simpl; [done|]. by rewrite <- IH. Qed.

Lemma convert_inputs_warning a : convert_inputs (warning a) = [].
Proof. by destruct a. Qed.

Lemma reformat_events_around PDFformat steps s :
  In s steps ->
  follows (EvGeneratePath ".pdf" (step_out s))
    (EvConvert PDFformat (step_in s) (step_out s) (step_res s))
    (reformat_events PDFformat steps).
Proof.
  intros (s1 & s2 & ->)%in_split. rewrite reformat_events_app.
  apply follows_app_r. simpl. apply follows_here.
Qed.

(** X14.  Every call to [engine.Convert] made by [convertRoute] asks for
    [pdfFormat], which is set, and writes to the path generated with [.pdf]
    immediately before the call.  After a merge there is one such call, on
    the merged file.  Without a merge the files reformatted are, in order, a
    prefix of the files the conversions produced. *)
Theorem convertRoute_reformat_calls E f st res evs format inp out r :
  run (convertRoute E f) st = (res, evs) ->
  In (EvConvert format inp out r) evs ->
  format = pdfFormat f /\ pdfFormat f <> "" /\
  follows (EvGeneratePath ".pdf" out) (EvConvert format inp out r) evs /\
  if existsb is_Merge evs
  then (exists ins, In (EvMerge ins inp None) evs) /\ occurrences is_Convert evs = 1%nat
  else convert_inputs evs `prefix_of` pdf_outputs evs.
Proof.
  intros Hruns%convertRoute_run_cases Hev.
  runs_cases Hruns; in_events Hev; try discriminate Hev; subst.
  all: injection Hev as ? ? ? ?; subst.
  all: (split; [reflexivity|split; [by apply nonempty_true|]]).
  all: rewrite ?existsb_app, ?existsb_warning, ?existsb_conv_events,
         ?existsb_reformat_events by done.
  all: cbn [existsb is_Merge orb].
  all: rewrite ?occurrences_app, ?occurrences_warning, ?occurrences_conv_events,
         ?convert_inputs_app, ?convert_inputs_warning, ?convert_inputs_conv_events,
         ?convert_inputs_reformat_events,
         ?pdf_outputs_app, ?pdf_outputs_warning, ?(pdf_outputs_conv_events _ _ Hok),
         ?pdf_outputs_reformat_events by done.
  all: cbn [app].
  all: rewrite ?app_nil_r.
  all: split.
  all: try (split; [eexists; apply in_or_app; right; apply in_or_app; right;
                    simpl; tauto | reflexivity]).
  all: try (repeat first
              [ apply follows_here
              | by apply follows_app_l, reformat_events_around
              | by apply reformat_events_around
              | apply follows_cons
              | apply follows_app_r ]).
  all: try (rewrite map_app; exact Hpre2).
  all: try (rewrite Hin2; reflexivity).
Qed.

Lemma convertRoute_reformat_calls_witness :
  exists res evs,
    run (convertRoute (scripted quiet) two_to_reformat) initial = (res, evs) /\
    "PDF/A-2b" = pdfFormat two_to_reformat /\ pdfFormat two_to_reformat <> "" /\
    follows (EvGeneratePath ".pdf" "/tmp/3.pdf")
      (EvConvert "PDF/A-2b" "/tmp/1.pdf" "/tmp/3.pdf" None) evs /\
    convert_inputs evs `prefix_of` pdf_outputs evs.
Proof.
  eexists _, _. split; [vm_compute; reflexivity|].
  eapply (convertRoute_reformat_calls (scripted quiet) two_to_reformat initial);
    [vm_compute; reflexivity | vm_compute; tauto].
Defined.

(** *** No document *)

Lemma prefix_snoc_nil {X} (l : list X) x : ~ (l ++ [x]) `prefix_of` [].
Proof. intros [k Hk]. by destruct l. Qed.

(** X15.  With no input document [convertRoute] converts, merges and
    reformats nothing, whatever [merge] and [pdfFormat] say: after the
    checks its only call is [AddOutputPaths] with no path, and it returns
    what that call returns. *)
Theorem convertRoute_no_document E f st res evs :
  inputPaths f = [] ->
  Validate f = None ->
  (formats_set f <= 1)%nat ->
  run (convertRoute E f) st = (res, evs) ->
  exists r,
    evs = warning (nativePdfA1aFormat f) ++ [EvAddOutputPaths [] r] /\
    res = wrapped "add output paths" r.
Proof.
  intros Hnone Hvalid Hone%conflict_None_iff Hruns%convertRoute_run_cases.
  runs_cases Hruns; try congruence.
  all: rewrite Hnone in *; simpl in *; try lia.
  all: try (by apply prefix_snoc_nil in Hpre).
  all: apply map_eq_nil in Hin; subst steps; simpl in *.
  - by exists r0.
  - by apply prefix_snoc_nil in Hpre2.
  - apply map_eq_nil in Hin2. subst rounds. by exists r0.
Qed.

Lemma convertRoute_no_document_witness :
  exists res evs r,
    run (convertRoute (scripted add_refused) no_documents) initial = (res, evs) /\
    evs = warning (nativePdfA1aFormat no_documents) ++ [EvAddOutputPaths [] r] /\
    res = wrapped "add output paths" r.
Proof.
  destruct (convertRoute_no_document (scripted add_refused) no_documents initial _ _
              eq_refl eq_refl ltac:(vm_compute; lia) eq_refl)
    as (r & H1 & H2).
  eexists _, _, r. split; [reflexivity|]. split; [exact H1 | exact H2].
Defined.

(** *** Generated paths *)

(** X16.  Every path [convertRoute] generates has the extension [.pdf] and
    is the output path of the call made immediately after it: a conversion,
    the merge or a reformat.  No generated path is left unused. *)
Theorem convertRoute_generated_paths E f st res evs ext path :
  run (convertRoute E f) st = (res, evs) ->
  In (EvGeneratePath ext path) evs ->
  ext = ".pdf" /\
  exists ev, follows (EvGeneratePath ext path) ev evs /\ output_of ev = Some path.
Proof.
  intros Hruns%convertRoute_run_cases Hev.
  runs_cases Hruns; in_events Hev; try discriminate Hev; subst.
  all: injection Hev as ? ?; subst.
  all: (split; [reflexivity|]).
  all: eexists.
  all: (split;
        [ repeat first
            [ apply follows_here
            | by apply follows_app_l, conv_events_around
            | by apply follows_app_l, reformat_events_around
            | by apply conv_events_around
            | by apply reformat_events_around
            | apply follows_cons
            | apply follows_app_r ]
        | reflexivity ]).
Qed.

Lemma convertRoute_generated_paths_witness :
  exists res evs,
    run (convertRoute (scripted quiet) three_documents) initial = (res, evs) /\
    exists ev,
      follows (EvGeneratePath ".pdf" "/tmp/3.pdf") ev evs /\
      output_of ev = Some "/tmp/3.pdf".
Proof.
  eexists _, _. split; [vm_compute; reflexivity|].
  eapply (convertRoute_generated_paths (scripted quiet) three_documents initial);
    [vm_compute; reflexivity | vm_compute; tauto].
Defined.

(** X17.  [convertRoute] only logs, generates paths, calls the conversion
    API and the PDF engine and adds output paths: it never enters
    [createPNG] and never touches a listener or the command runner. *)
Theorem convertRoute_pipeline_only E f st res evs :
  run (convertRoute E f) st = (res, evs) ->
  forallb pipeline_event evs = true.
Proof.
  intros Hruns%convertRoute_run_cases.
  runs_cases Hruns.
  all: rewrite ?forallb_app, ?forallb_warning, ?forallb_conv_events,
         ?forallb_reformat_events by done.
  all: reflexivity.
Qed.

Lemma convertRoute_pipeline_only_witness :
  exists res evs,
    run (convertRoute (scripted format_unavailable) two_to_reformat) initial = (res, evs) /\
    forallb pipeline_event evs = true.
Proof.
  eexists _, _. split; [vm_compute; reflexivity|].
  eapply (convertRoute_pipeline_only (scripted format_unavailable) two_to_reformat initial).
  vm_compute. reflexivity.
Defined.

(** ** [createPNG] and [generateThumnailRoute] *)

(** X18.  [createPNG] returns [nil] exactly when none of its calls (start
    or lock, command creation, execution) returned an error; an error of
    the deferred [stop] does not count. *)
Theorem createPNG_nil_iff E inputPath outputPath options st res evs :
  run (createPNG E inputPath outputPath options) st = (res, evs) ->
  res = None <-> existsb call_failed evs = false.
Proof.
  revert res evs. by_wp.
  createPNG_leaves.
  all: cbn [existsb call_failed orb returned]; split; intros Hx; done.
Qed.

Lemma createPNG_nil_iff_witness :
  exists res evs,
    run (createPNG (scripted exit_three_no_error) "a.docx" "/tmp/0.png" page_one) initial
      = (res, evs) /\
    (res = None <-> existsb call_failed evs = false).
Proof.
  eexists _, _. split; [vm_compute; reflexivity|].
  eapply (createPNG_nil_iff (scripted exit_three_no_error)
           "a.docx" "/tmp/0.png" page_one initial).
  vm_compute. reflexivity.
Defined.

Lemma createPNG_call_failed E inputPath outputPath options h :
  wp (createPNG E inputPath outputPath options) h (fun r evs =>
    returned r = None <-> existsb call_failed evs = false).
Proof.
  createPNG_leaves.
  all: cbn [existsb call_failed orb returned]; split; intros Hx; done.
Qed.

Lemma following_app_none P l1 l2 :
  existsb P l1 = false -> following P (l1 ++ l2) = following P l2.
Proof.
  induction l1 as [|ev l1 IH]; simpl; [done|].
  destruct (P ev); simpl; [done|]. exact IH.
Qed.

Lemma forallb_following (P Q : Event -> bool) l :
  forallb Q l = true -> forallb Q (following P l) = true.
Proof.
  induction l as [|ev l IH]; simpl; [done|].
  intros [Hev Hl]%andb_true_iff. destruct (P ev); auto.
Qed.

Lemma png_inputs_app l1 l2 : png_inputs (l1 ++ l2) = png_inputs l1 ++ png_inputs l2.
Proof. apply flat_map_app. Qed.

Lemma png_inputs_worker l : forallb worker_event l = true -> png_inputs l = [].
Proof.
  induction l as [|ev l IH]; simpl; [done|].
  intros [Hev Hl]%andb_true_iff. rewrite IH by done. by destruct ev.
Qed.

Lemma thumbnailLoop_order_spec E f nativePDFformat rest :
  forall i outs h,
    wp (generateThumnailRoute_loop E f nativePDFformat i rest outs) h
       (thumbnailLoop_order rest).
Proof.
  induction rest as [|inputPath rest IH]; intros i outs h; simpl.
  - apply wp_ret. by split.
  - apply wp_bind. apply wp_call. intros p _. cbn beta iota.
    apply wp_bind. apply wp_invoke.
    eapply wp_conseq.
    { apply wp_and; [apply createPNG_frame | apply createPNG_call_failed]. }
    intros r0 evs0 [(rest0 & -> & Hworker) Hnil]. cbn beta iota.
    assert (Hpng : png_inputs rest0 = []) by (by apply png_inputs_worker).
    destruct (returned r0) as [e|].
    + apply wp_raise. rewrite app_nil_r. split.
      * simpl. rewrite Hpng. apply prefix_cons, prefix_nil.
      * simpl in *. destruct (existsb call_failed rest0) eqn:Hfail.
        -- split; [done|]. by apply forallb_following.
        -- by destruct Hnil as [_ Hnil]; specialize (Hnil eq_refl).
    + destruct Hnil as [Hnil _]. specialize (Hnil eq_refl). simpl in Hnil.
      eapply wp_conseq; [apply IH|].
      intros r evs [Hpre Hr]. split.
      * simpl. rewrite png_inputs_app, Hpng. simpl. by apply prefix_cons.
      * change ([EvGeneratePath ".png" p] ++
                (EvCreatePNG inputPath (<[i:=p]> outs !!! i)
                   {| Landscape := landscape f; PageRanges := "1";
                      PDFformat := nativePDFformat |} :: rest0) ++ evs)
          with ((EvGeneratePath ".png" p
                 :: EvCreatePNG inputPath (<[i:=p]> outs !!! i)
                      {| Landscape := landscape f; PageRanges := "1";
                         PDFformat := nativePDFformat |} :: rest0) ++ evs).
        rewrite existsb_app, following_app_none, png_inputs_app by (simpl; exact Hnil).
        simpl. rewrite Hnil, Hpng. simpl.
        destruct r as [outs'|err]; [|exact Hr].
        destruct Hr as [Hr ->]. by split.
Qed.

Lemma png_inputs_warning a : png_inputs (warning a) = [].
Proof. by destruct a. Qed.

Lemma call_failed_warning a : existsb call_failed (warning a) = false.
Proof. by destruct a. Qed.

Lemma generateThumnailRoute_order E f h :
  wp (generateThumnailRoute E f) h (fun r evs =>
    png_inputs evs `prefix_of` inputPaths f /\
    (returned r = None ->
     png_inputs evs = inputPaths f /\ existsb call_failed evs = false) /\
    (existsb call_failed evs = true ->
     returned r <> None /\
     forallb worker_event (following call_failed evs) = true)).
Proof.
  unfold generateThumnailRoute.
  destruct (Validate f) as [e|].
  { apply wp_raise. split; [apply prefix_nil|]. by split. }
  apply wp_bind. eapply wp_conseq; [apply check_formats_warning|].
  intros r evs0 [-> Hc]. destruct (conflict _ _ _) as [e|]; subst r.
  { rewrite png_inputs_warning, call_failed_warning.
    split; [apply prefix_nil|]. by split. }
  cbn beta iota. apply wp_bind. eapply wp_conseq; [apply thumbnailLoop_order_spec|].
  intros [outs|e] evs [Hpre Hr]; cbn beta iota.
  - destruct Hr as [Hfail Hall]. wp_steps.
    all: rewrite !png_inputs_app, !existsb_app, png_inputs_warning,
           call_failed_warning, Hfail, Hall; simpl; rewrite app_nil_r.
    all: (split; [done|split; [intros Hr; by try discriminate Hr | done]]).
  - destruct Hr as [Hfail Hworker].
    rewrite png_inputs_app, existsb_app, png_inputs_warning, call_failed_warning,
      Hfail, following_app_none by apply call_failed_warning.
    simpl. split; [done|]. by split.
Qed.

(** X19.  [generateThumnailRoute] gives the documents to [createPNG] in the
    order of the request, each at most once; when it returns [nil] it has
    given all of them and none of the calls made by [createPNG] failed. *)
Theorem generateThumnailRoute_in_order E f st res evs :
  run (generateThumnailRoute E f) st = (res, evs) ->
  png_inputs evs `prefix_of` inputPaths f /\
  (res = None -> png_inputs evs = inputPaths f /\ existsb call_failed evs = false).
Proof.
  revert res evs. by_wp.
  eapply wp_conseq; [apply generateThumnailRoute_order|].
  intros r evs (H1 & H2 & _). by split.
Qed.

Lemma generateThumnailRoute_in_order_witness :
  exists res evs,
    run (generateThumnailRoute (scripted quiet) landscape_pages) initial = (res, evs) /\
    png_inputs evs `prefix_of` inputPaths landscape_pages /\
    (res = None ->
     png_inputs evs = inputPaths landscape_pages /\ existsb call_failed evs = false).
Proof.
  eexists _, _. split; [vm_compute; reflexivity|].
  eapply (generateThumnailRoute_in_order (scripted quiet) landscape_pages initial).
  vm_compute. reflexivity.
Defined.

(** X20.  When a call made by [createPNG] fails, [generateThumnailRoute]
    returns an error, and after the failed call nothing happens but what
    [createPNG] itself still does (logging, stopping or unlocking its
    listener): no other document is started and no path is added to the
    response. *)
Theorem generateThumnailRoute_fails_fast E f st res evs :
  run (generateThumnailRoute E f) st = (res, evs) ->
  existsb call_failed evs = true ->
  res <> None /\ forallb worker_event (following call_failed evs) = true.
Proof.
  revert res evs. by_wp.
  eapply wp_conseq; [apply generateThumnailRoute_order|].
  intros r evs (_ & _ & H3). exact H3.
Qed.

Lemma generateThumnailRoute_fails_fast_witness :
  exists res evs,
    run (generateThumnailRoute (scripted private_listener) landscape_pages) initial
      = (res, evs) /\
    png_inputs evs = ["a.docx"] /\
    res <> None /\ forallb worker_event (following call_failed evs) = true.
Proof.
  eexists _, _. split; [vm_compute; reflexivity|]. split; [vm_compute; reflexivity|].
  eapply (generateThumnailRoute_fails_fast (scripted private_listener) landscape_pages
           initial); vm_compute; reflexivity.
Defined.

(** *** Form fields the thumbnail handler does not read *)

Lemma bind_ext {A B} (m : M A) (k k' : A -> M B) st :
  (forall a st', k a st' = k' a st') -> bind m k st = bind m k' st.
Proof. intros Hk. unfold bind. destruct (m st) as [[a|e] st1]; [apply Hk|done]. Qed.

Lemma generateThumnailRoute_loop_ext E f f' nativePDFformat rest :
  landscape f = landscape f' ->
  forall i outs st,
    generateThumnailRoute_loop E f nativePDFformat i rest outs st =
    generateThumnailRoute_loop E f' nativePDFformat i rest outs st.
Proof.
  intros Hl. induction rest as [|inputPath rest IH]; intros i outs st; simpl; [done|].
  rewrite Hl. apply bind_ext. intros p st1. apply bind_ext. intros [e|] st2; [done|].
  apply IH.
Qed.

(** X21.  [generateThumnailRoute] reads [inputPaths], [landscape] and the
    result of the validation, and nothing else of the form: two requests
    that agree on these run identically, whatever their [nativePageRanges],
    [nativePdfFormat], [pdfFormat], [nativePdfA1aFormat] and [merge]. *)
Theorem generateThumnailRoute_ignores_other_fields E f f' st :
  same_thumbnail_request f f' ->
  generateThumnailRoute E f st = generateThumnailRoute E f' st.
Proof.
  intros (Hin & Hl & HV). unfold generateThumnailRoute. rewrite <- HV, <- Hin.
  destruct (Validate f); [done|].
  apply bind_ext. intros fmt st1. unfold bind.
  by rewrite (generateThumnailRoute_loop_ext E f f' fmt (inputPaths f) Hl).
Qed.

Lemma generateThumnailRoute_ignores_other_fields_witness :
  generateThumnailRoute (scripted quiet) two_to_reformat initial =
  generateThumnailRoute (scripted quiet) conflicting_form initial.
Proof.
  eapply (generateThumnailRoute_ignores_other_fields (scripted quiet)
           two_to_reformat conflicting_form initial).
  vm_compute. tauto.
Defined.

(** *** The instance counter *)

Lemma generateThumnailRoute_loop_keeps_count E f nativePDFformat rest :
  forall i outs, keeps_count (generateThumnailRoute_loop E f nativePDFformat i rest outs).
Proof.
  induction rest as [|inputPath rest IH]; intros i outs; simpl.
  - apply keeps_count_ret.
  - apply keeps_count_bind; [apply keeps_count_call|intros p].
    apply keeps_count_bind.
    + apply keeps_count_invoke, createPNG_keeps.
    + intros [e|]; [apply keeps_count_raise | apply IH].
Qed.

Lemma check_formats_keeps_count a n p : keeps_count (check_formats a n p).
Proof. unfold check_formats. repeat keeps_count_step. Qed.

(** X22.  [generateThumnailRoute] gives the instance counter back as it
    found it, whatever happens to its calls to [createPNG]. *)
Theorem generateThumnailRoute_restores_counter E f st :
  int_range (activeInstancesCount st) ->
  activeInstancesCount (snd (generateThumnailRoute E f st)) = activeInstancesCount st.
Proof.
  revert st. change (keeps_count (generateThumnailRoute E f)).
  unfold generateThumnailRoute. destruct (Validate f); [apply keeps_count_raise|].
  apply keeps_count_bind; [apply check_formats_keeps_count|intros fmt].
  apply keeps_count_bind; [apply generateThumnailRoute_loop_keeps_count|intros outs].
  repeat keeps_count_step.
Qed.

Lemma generateThumnailRoute_restores_counter_witness :
  activeInstancesCount
    (snd (generateThumnailRoute (scripted quiet) landscape_pages counter_at_max)) =
  2 ^ 63 - 1.
Proof.
  eapply (generateThumnailRoute_restores_counter (scripted quiet) landscape_pages
           counter_at_max).
  vm_compute. split; [discriminate | reflexivity].
Defined.

(** *** What the thumbnail handler asks for and answers *)

(** X23.  In [generateThumnailRoute] every call to [createPNG] receives an
    [Options] record whose [PageRanges] is ["1"], whatever the form says,
    and an output path generated with the extension [.png]; every generated
    path has that extension; no document is converted to PDF, merged or
    reformatted; and when the handler returns [nil] it has made one call to
    [AddOutputPaths] with as many paths as input documents, the i-th being
    the output path given to the [createPNG] call for the i-th input. *)
Theorem generateThumnailRoute_png_outputs E f st res evs :
  run (generateThumnailRoute E f) st = (res, evs) ->
  (forall inp out options,
      In (EvCreatePNG inp out options) evs ->
      PageRanges options = "1" /\ In (EvGeneratePath ".png" out) evs) /\
  (forall ext path, In (EvGeneratePath ext path) evs -> ext = ".png") /\
  (forall ev, In ev evs ->
      is_Merge ev = false /\ is_Convert ev = false /\
      match ev with EvPDF _ _ _ _ => False | _ => True end) /\
  (res = None ->
   exists outs,
     adds_once evs outs /\
     length outs = length (inputPaths f) /\
     Forall2 (fun inp out =>
                exists options,
                  In (EvCreatePNG inp out options) evs /\ PageRanges options = "1")
             (inputPaths f) outs).
Proof.
  intros Hrun.
  eapply wp_run in Hrun as (r & -> & HQ); [|apply generateThumnailRoute_spec].
  destruct HQ as [Hev Hentry _ Houts].
  rewrite forallb_forall in Hev.
  split; [|split; [|split]].
  - intros inp out options Hin. apply Hentry in Hin as [-> Hin]. by split.
  - intros ext path Hin. apply Hev in Hin.
    unfold thumbnailRoute_event in Hin. simpl in Hin.
    rewrite orb_false_r in Hin. by apply String.eqb_eq in Hin.
  - intros ev Hin. apply Hev in Hin. by destruct ev.
  - intros Hr. destruct (Houts Hr) as (outs & Hadd & Hall).
    exists outs. split; [exact Hadd|]. split.
    + symmetry. by eapply Forall2_length.
    + eapply Forall2_impl; [exact Hall|]. intros inp p Hp.
      exists (thumbnailOptions f (pkg_native_format E)). by split.
Qed.

Lemma generateThumnailRoute_png_outputs_witness :
  exists evs outs,
    run (generateThumnailRoute (scripted quiet) landscape_pages) initial = (None, evs) /\
    (forall inp out options,
        In (EvCreatePNG inp out options) evs ->
        PageRanges options = "1" /\ In (EvGeneratePath ".png" out) evs) /\
    adds_once evs outs /\
    length outs = 2%nat.
Proof.
  destruct (generateThumnailRoute_png_outputs (scripted quiet) landscape_pages initial
              None _ ltac:(vm_compute; reflexivity)) as (H1 & _ & _ & H4).
  destruct (H4 eq_refl) as (outs & Hadd & Hlen & _).
  eexists _, outs. split; [vm_compute; reflexivity|]. auto.
Defined.
